(** * moonpalace: the [export] command ([export.go])

    A shallow embedding of [genFilename], [writeCurlCommand] and the [Run]
    closure of [exportCommand], together with the library functions they call
    ([strings], [net/textproto], [time], [encoding/json], [pflag]).

    Go strings are byte sequences; they are modelled by [string], whose
    characters are the 256 byte values. *)

From Stdlib Require Import Ascii String DecimalString List Bool Arith ZArith Lia Permutation.
From stdpp Require Import base option list gmap strings fin_maps.

(** ** Bytes *)

Module Bytes.

Definition squote : ascii := "'"%char.
Definition dquote : ascii := "034"%char.
Definition backslash : ascii := "092"%char.
Definition LF : ascii := "010"%char.
Definition CR : ascii := "013"%char.
Definition TAB : ascii := "009"%char.
Definition SP : ascii := " "%char.

Definition code (c : ascii) : N := N_of_ascii c.

Definition in_range (lo hi c : ascii) : bool :=
  ((code lo <=? code c) && (code c <=? code hi))%N.

Definition is_upper (c : ascii) : bool := in_range "A"%char "Z"%char c.
Definition is_lower (c : ascii) : bool := in_range "a"%char "z"%char c.
Definition is_digit (c : ascii) : bool := in_range "0"%char "9"%char c.
Definition is_letter (c : ascii) : bool := is_upper c || is_lower c.

(** [c + ('a' - 'A')] and [c - ('a' - 'A')] on a byte. *)
Definition to_lower (c : ascii) : ascii :=
  if is_upper c then ascii_of_N (code c + 32) else c.
Definition to_upper (c : ascii) : ascii :=
  if is_lower c then ascii_of_N (code c - 32) else c.

(** [c < utf8.RuneSelf] *)
Definition is_ascii (c : ascii) : bool := (code c <? 128)%N.

End Bytes.

(** ** Package [strings] *)

Module Strings.

Definition str1 (c : ascii) : string := String c EmptyString.

Fixpoint HasPrefix (s prefix : string) {struct prefix} : bool :=
  match prefix, s with
  | EmptyString, _ => true
  | String p prefix', String c s' => Ascii.eqb c p && HasPrefix s' prefix'
  | String _ _, EmptyString => false
  end.

Fixpoint drop (n : nat) (s : string) : string :=
  match n, s with
  | O, _ => s
  | S n', String _ s' => drop n' s'
  | S _, EmptyString => EmptyString
  end.

(** [if HasPrefix(s, prefix) { return s[len(prefix):] }; return s] *)
Definition TrimPrefix (s prefix : string) : string :=
  if HasPrefix s prefix then drop (String.length prefix) s else s.

(** [strings.ReplaceAll(s, old, new)] where [old] is a one-byte string, as
    at both call sites of [export.go]: every occurrence of the byte is
    replaced, left to right. *)
Fixpoint ReplaceAll (s : string) (old : ascii) (new : string) : string :=
  match s with
  | EmptyString => EmptyString
  | String c s' =>
      if Ascii.eqb c old then new +:+ ReplaceAll s' old new
      else String c (ReplaceAll s' old new)
  end.

Fixpoint forallb (p : ascii -> bool) (s : string) : bool :=
  match s with
  | EmptyString => true
  | String c s' => p c && forallb p s'
  end.

Fixpoint map (f : ascii -> ascii) (s : string) : string :=
  match s with
  | EmptyString => EmptyString
  | String c s' => String (f c) (map f s')
  end.

(** [strings.ToLower]: ASCII-only strings are lower-cased byte by byte;
    any other string goes through [Map(unicode.ToLower, s)], which is kept
    abstract as [unicodeLower]. *)
Definition ToLower (unicodeLower : string -> string) (s : string) : string :=
  if forallb Bytes.is_ascii s then map Bytes.to_lower s else unicodeLower s.

Fixpoint concat (l : list string) : string :=
  match l with
  | [] => EmptyString
  | s :: l' => s +:+ concat l'
  end.

(** [s] occurs in [t] as a contiguous substring. *)
Fixpoint Contains (t s : string) : bool :=
  HasPrefix t s ||
  match t with
  | EmptyString => false
  | String _ t' => Contains t' s
  end.

End Strings.

(** ** POSIX shell quoting

    The fragment of the Shell Command Language (quoting, line continuation,
    field separation by blanks, parameter expansion inside double quotes)
    that a rendered command uses.  [eval env text] is the argument vector of
    the single simple command that [text] denotes; [None] means that [text]
    leaves the fragment (an operator, a glob, a substitution, an open
    quote, or a second command). *)

Module Shell.

Inductive Mode : Type :=
| Unq                     (* outside quotes *)
| UnqEsc                  (* outside quotes, after a backslash *)
| Sq                      (* inside '...' *)
| Dq                      (* inside "..." *)
| DqEsc                   (* inside "...", after a backslash *)
| DqVar (name : string)   (* inside "...", reading the name after $ *)
| Done.                   (* after the newline that ends the command *)

Record St : Type := mkSt {
  mode : Mode;
  cur : option string;    (* the word being built, if one was started *)
  argv : list string;     (* the words completed so far *)
}.

Definition init : St := mkSt Unq None [].

Definition word (st : St) : string := default EmptyString (cur st).

Definition push (c : ascii) (m : Mode) (st : St) : St :=
  mkSt m (Some (word st +:+ Strings.str1 c)) (argv st).

Definition pushs (s : string) (m : Mode) (st : St) : St :=
  mkSt m (Some (word st +:+ s)) (argv st).

Definition open (m : Mode) (st : St) : St :=
  mkSt m (Some (word st)) (argv st).

Definition goto (m : Mode) (st : St) : St :=
  mkSt m (cur st) (argv st).

Definition end_word (m : Mode) (st : St) : St :=
  mkSt m None (argv st ++ option_list (cur st)).

Definition is_blank (c : ascii) : bool :=
  Ascii.eqb c Bytes.SP || Ascii.eqb c Bytes.TAB.

(** Bytes that stand for themselves outside quotes. *)
Definition is_plain (c : ascii) : bool :=
  Bytes.is_letter c || Bytes.is_digit c ||
  existsb (Ascii.eqb c) ["-"; "_"; "."; "/"; ":"; ","; "@"; "%"; "+"]%char.

Definition is_name_start (c : ascii) : bool :=
  Bytes.is_letter c || Ascii.eqb c "_"%char.
Definition is_name_char (c : ascii) : bool :=
  is_name_start c || Bytes.is_digit c.

Definition step_dq (st : St) (c : ascii) : option St :=
  if Ascii.eqb c Bytes.dquote then Some (goto Unq st)
  else if Ascii.eqb c Bytes.backslash then Some (goto DqEsc st)
  else if Ascii.eqb c "$"%char then Some (goto (DqVar EmptyString) st)
  else if Ascii.eqb c "`"%char then None
  else Some (push c Dq st).

Definition step (env : string -> string) (st : St) (c : ascii) : option St :=
  match mode st with
  | Done => None
  | Unq =>
      if is_blank c then Some (end_word Unq st)
      else if Ascii.eqb c Bytes.LF then Some (end_word Done st)
      else if Ascii.eqb c Bytes.backslash then Some (goto UnqEsc st)
      else if Ascii.eqb c Bytes.squote then Some (open Sq st)
      else if Ascii.eqb c Bytes.dquote then Some (open Dq st)
      else if is_plain c then Some (push c Unq st)
      else None
  | UnqEsc =>
      if Ascii.eqb c Bytes.LF then Some (goto Unq st)
      else Some (push c Unq st)
  | Sq =>
      if Ascii.eqb c Bytes.squote then Some (goto Unq st)
      else Some (push c Sq st)
  | Dq => step_dq st c
  | DqEsc =>
      if existsb (Ascii.eqb c) ["$"; "`"; Bytes.dquote; Bytes.backslash]%char
      then Some (push c Dq st)
      else if Ascii.eqb c Bytes.LF then Some (goto Dq st)
      else Some (push c Dq (push Bytes.backslash Dq st))
  | DqVar name =>
      match name with
      | EmptyString =>
          if is_name_start c then Some (goto (DqVar (Strings.str1 c)) st) else None
      | _ =>
          if is_name_char c then Some (goto (DqVar (name +:+ Strings.str1 c)) st)
          else step_dq (pushs (env name) Dq st) c
      end
  end.

Fixpoint run (env : string -> string) (st : St) (text : string) : option St :=
  match text with
  | EmptyString => Some st
  | String c text' =>
      match step env st c with
      | Some st' => run env st' text'
      | None => None
      end
  end.

Definition finish (st : St) : option (list string) :=
  match mode st with
  | Unq => Some (argv st ++ option_list (cur st))
  | Done => Some (argv st)
  | _ => None
  end.

Definition eval (env : string -> string) (text : string) : option (list string) :=
  match run env init text with
  | Some st => finish st
  | None => None
  end.

End Shell.

(** ** The curl renderer's escaping ([export.go], lines 133-135) *)

(** The raw string literal [`'"'"'`]. *)
Definition quote_splice : string :=
  String Bytes.squote (String Bytes.dquote (String Bytes.squote
    (String Bytes.dquote (String Bytes.squote EmptyString)))).

Definition escape (s : string) : string :=
  Strings.ReplaceAll s Bytes.squote quote_splice.

(** ** Package [net/textproto]: [Reader.ReadMIMEHeader] and [MIMEHeader.Del]

    The reader is run on a whole in-memory text, as [export.go] does
    ([strings.NewReader] under [bufio.NewReader]); buffering is then
    unobservable, and the memory and header-count limits, which
    [ReadMIMEHeader] sets to [math.MaxInt64], are never reached. *)

Module Textproto.

Inductive Error : Type :=
| EOF                  (* io.EOF *)
| ProtocolError        (* textproto.ProtocolError *)
| ErrMessageTooLarge.

(** [type MIMEHeader map[string][]string] *)
Abbreviation MIMEHeader := (gmap string (list string)).

Definition cons_hd (c : ascii) (ls : list string) : list string :=
  match ls with
  | [] => [Strings.str1 c]
  | l :: ls' => String c l :: ls'
  end.

(** The successive results of [bufio.Reader.ReadLine]: the text is cut at
    each ["\n"], and a ["\r"] just before it is dropped with it; a last
    line without ["\n"] is returned as it is; after that comes [io.EOF]. *)
Fixpoint lines (s : string) : list string :=
  match s with
  | EmptyString => []
  | String c s' =>
      if Ascii.eqb c Bytes.LF then EmptyString :: lines s'
      else match s' with
           | String c' s'' =>
               if Ascii.eqb c Bytes.CR && Ascii.eqb c' Bytes.LF
               then EmptyString :: lines s''
               else cons_hd c (lines s')
           | EmptyString => [Strings.str1 c]
           end
  end.

Definition is_blank (c : ascii) : bool :=
  Ascii.eqb c Bytes.SP || Ascii.eqb c Bytes.TAB.

Fixpoint trim_left (s : string) : string :=
  match s with
  | String c s' => if is_blank c then trim_left s' else s
  | EmptyString => EmptyString
  end.

Fixpoint trim_right (s : string) : string :=
  match s with
  | EmptyString => EmptyString
  | String c s' =>
      match trim_right s' with
      | EmptyString => if is_blank c then EmptyString else Strings.str1 c
      | t => String c t
      end
  end.

(** [trim]: leading and trailing spaces and tabs removed. *)
Definition trim (s : string) : string := trim_right (trim_left s).

Definition starts_blank (s : string) : bool :=
  match s with
  | String c _ => is_blank c
  | EmptyString => false
  end.

(** [bytes.Cut(kv, colon)] *)
Fixpoint cut (sep : ascii) (s : string) : option (string * string) :=
  match s with
  | EmptyString => None
  | String c s' =>
      if Ascii.eqb c sep then Some (EmptyString, s')
      else match cut sep s' with
           | Some (k, v) => Some (String c k, v)
           | None => None
           end
  end.

Definition validHeaderFieldByte (c : ascii) : bool :=
  Bytes.is_digit c || Bytes.is_lower c || Bytes.is_upper c ||
  existsb (Ascii.eqb c)
    ["!"; "#"; "$"; "%"; "&"; "'"; "*"; "+"; "-"; "."; "^"; "_"; "`"; "|"; "~"]%char.

(** HTAB, SP, VCHAR and obs-text. *)
Definition validHeaderValueByte (c : ascii) : bool :=
  Ascii.eqb c Bytes.TAB || Bytes.in_range " "%char "~"%char c ||
  negb (Bytes.is_ascii c).

(** The second loop of [canonicalMIMEHeaderKey]: upper case at the start
    and after each dash, lower case elsewhere. *)
Fixpoint canonicalize (upper : bool) (a : string) : string :=
  match a with
  | EmptyString => EmptyString
  | String c a' =>
      let c' := if upper && Bytes.is_lower c then Bytes.to_upper c
                else if negb upper && Bytes.is_upper c then Bytes.to_lower c
                else c in
      String c' (canonicalize (Ascii.eqb c' "-"%char) a')
  end.

(** [canonicalMIMEHeaderKey]: the key and whether it is acceptable.  A key
    holding a space is accepted but left as it is; the lookup in
    [commonHeader] only shares the storage of equal strings. *)
Definition canonicalMIMEHeaderKey (a : string) : string * bool :=
  match a with
  | EmptyString => (EmptyString, false)
  | _ =>
      if negb (Strings.forallb (fun c => validHeaderFieldByte c || Ascii.eqb c Bytes.SP) a)
      then (a, false)
      else if negb (Strings.forallb validHeaderFieldByte a) then (a, true)
      else (canonicalize true a, true)
  end.

(** [CanonicalMIMEHeaderKey]; its first loop only detects keys that are
    canonical already. *)
Definition CanonicalMIMEHeaderKey (s : string) : string :=
  fst (canonicalMIMEHeaderKey s).

(** [func (h MIMEHeader) Del(key string)]; deleting from a nil map does
    nothing, as here from the empty one. *)
Definition Del (key : string) (h : MIMEHeader) : MIMEHeader :=
  delete (CanonicalMIMEHeaderKey key) h.

(** One pass of the loop body of [readMIMEHeader] after the (continued)
    line [kv] was read: cut at the first colon, canonicalise the key, check
    the value bytes, append the value with its leading blanks removed. *)
Definition addLine (kv : string) (m : MIMEHeader) : MIMEHeader * option Error :=
  match cut ":"%char kv with
  | None => (m, Some ProtocolError)
  | Some (k, v) =>
      let '(key, ok) := canonicalMIMEHeaderKey k in
      if negb ok then (m, Some ProtocolError)
      else if negb (Strings.forallb validHeaderValueByte v) then (m, Some ProtocolError)
      else (<[key := default [] (m !! key) ++ [trim_left v]]> m, None)
  end.

(** The loop of [readMIMEHeader] over the lines still to read.  [pending]
    is the buffer of [readContinuedLineSlice]: the trimmed first line of a
    header and the continuation lines read so far. *)
Fixpoint readLoop (pending : option string) (m : MIMEHeader) (ls : list string)
  : MIMEHeader * option Error :=
  match pending, ls with
  | Some buf, l :: ls' =>
      if starts_blank l
      then readLoop (Some (buf +:+ Strings.str1 Bytes.SP +:+ trim l)) m ls'
      else match addLine buf m with
           | (m', None) =>
               match l with
               | EmptyString => (m', None)
               | _ =>
                   match cut ":"%char l with
                   | None => (m', Some ProtocolError)
                   | Some _ => readLoop (Some (trim l)) m' ls'
                   end
               end
           | failed => failed
           end
  | Some buf, [] =>
      match addLine buf m with
      | (m', None) => (m', Some EOF)
      | failed => failed
      end
  | None, l :: ls' =>
      match l with
      | EmptyString => (m, None)
      | _ =>
          match cut ":"%char l with
          | None => (m, Some ProtocolError)
          | Some _ => readLoop (Some (trim l)) m ls'
          end
      end
  | None, [] => (m, Some EOF)
  end.

(** [ReadMIMEHeader] on the text [s]: a first line that starts with a
    space or a tab is refused before the loop. *)
Definition ReadMIMEHeader (s : string) : MIMEHeader * option Error :=
  match lines s with
  | l :: _ =>
      if starts_blank l
      then (∅, Some (if 80 <? String.length l then ErrMessageTooLarge else ProtocolError))
      else readLoop None ∅ (lines s)
  | [] => readLoop None ∅ []
  end.

End Textproto.

(** ** Package [database/sql]: [NullString] *)

Module Sql.

Record NullString : Type := mkNullString {
  String : string;
  Valid : bool;   (* Valid is true if String is not NULL *)
}.

End Sql.

(** ** Package [time]: [Time.Format]

    A [Time] is represented by what [t.Date()] and [t.Clock()] return in
    the location of [t]: the reading of a calendar and a clock there.  Two
    values are equal when they read the same, which instants in different
    locations can do; the zone and the fraction of the second, which the
    layout of [export.go] does not print, are not part of it. *)

Module Time.

Record Time : Type := mkTime {
  Year : Z;
  Month : nat;     (* 1 .. 12 *)
  Day : nat;       (* 1 .. 31 *)
  Hour : nat;      (* 0 .. 23 *)
  Minute : nat;    (* 0 .. 59 *)
  Second : nat;    (* 0 .. 59 *)
}.

Definition decimal (n : N) : string :=
  DecimalString.NilZero.string_of_uint (N.to_uint n).

Fixpoint zeros (n : nat) : string :=
  match n with
  | O => EmptyString
  | S n' => String "0"%char (zeros n')
  end.

(** [appendInt(b, x, width)]: a minus sign for a negative [x], then the
    decimal digits of its absolute value, padded with zeros on the left to
    [width] digits. *)
Definition appendInt (x : Z) (width : nat) : string :=
  let digits := decimal (Z.abs_N x) in
  (if (x <? 0)%Z then "-" else EmptyString) +:+
  zeros (width - String.length digits) +:+ digits.

(** The chunks of a layout that [nextStdChunk] recognises, as far as the
    layout of [export.go] uses them. *)
Inductive Chunk : Type :=
| stdLongYear      (* "2006" *)
| stdZeroMonth     (* "01" *)
| stdZeroDay       (* "02" *)
| stdHour          (* "15" *)
| stdZeroMinute    (* "04" *)
| stdZeroSecond.   (* "05" *)

Definition appendChunk (t : Time) (c : Chunk) : string :=
  match c with
  | stdLongYear => appendInt (Year t) 4
  | stdZeroMonth => appendInt (Z.of_nat (Month t)) 2
  | stdZeroDay => appendInt (Z.of_nat (Day t)) 2
  | stdHour => appendInt (Z.of_nat (Hour t)) 2
  | stdZeroMinute => appendInt (Z.of_nat (Minute t)) 2
  | stdZeroSecond => appendInt (Z.of_nat (Second t)) 2
  end.

(** The layout ["20060102150405"], cut into its chunks; no text stands
    between them. *)
Definition layout_20060102150405 : list Chunk :=
  [stdLongYear; stdZeroMonth; stdZeroDay; stdHour; stdZeroMinute; stdZeroSecond].

Definition Format (t : Time) (layout : list Chunk) : string :=
  Strings.concat (List.map (appendChunk t) layout).

End Time.

(** ** Package [encoding/json]: the encoder's settings and string escaping *)

Module Json.

Record Encoder : Type := mkEncoder {
  indentPrefix : string;
  indentValue : string;
  escapeHTML : bool;
}.

(** [NewEncoder]: no indentation, HTML escaping on. *)
Definition NewEncoder : Encoder := mkEncoder EmptyString EmptyString true.

Definition SetIndent (prefix indent : string) (enc : Encoder) : Encoder :=
  mkEncoder prefix indent (escapeHTML enc).

Definition SetEscapeHTML (on : bool) (enc : Encoder) : Encoder :=
  mkEncoder (indentPrefix enc) (indentValue enc) on.

(** [safeSet]: the ASCII bytes that need no escape in a JSON string. *)
Definition safeSet (b : ascii) : bool :=
  Bytes.in_range " "%char "127"%char b &&
  negb (Ascii.eqb b Bytes.dquote) && negb (Ascii.eqb b Bytes.backslash).

(** [htmlSafeSet]: [safeSet] without the three HTML-sensitive bytes. *)
Definition htmlSafeSet (b : ascii) : bool :=
  safeSet b && negb (existsb (Ascii.eqb b) ["<"; ">"; "&"]%char).

Definition hex (n : N) : ascii :=
  nth (N.to_nat n)
    ["0"; "1"; "2"; "3"; "4"; "5"; "6"; "7"; "8"; "9"; "a"; "b"; "c"; "d"; "e"; "f"]%char
    "0"%char.

Definition esc (c : ascii) : string := String Bytes.backslash (Strings.str1 c).

(** The escape of one ASCII byte in [appendString]. *)
Definition appendByte (escapeHTML : bool) (b : ascii) : string :=
  if htmlSafeSet b || (negb escapeHTML && safeSet b) then Strings.str1 b
  else if Ascii.eqb b Bytes.backslash || Ascii.eqb b Bytes.dquote then esc b
  else if Ascii.eqb b "008"%char then esc "b"%char
  else if Ascii.eqb b "012"%char then esc "f"%char
  else if Ascii.eqb b Bytes.LF then esc "n"%char
  else if Ascii.eqb b Bytes.CR then esc "r"%char
  else if Ascii.eqb b Bytes.TAB then esc "t"%char
  else String Bytes.backslash
         (String "u"%char (String "0"%char (String "0"%char
           (String (hex (Bytes.code b / 16)) (Strings.str1 (hex (Bytes.code b mod 16))))))).

Fixpoint appendBytes (escapeHTML : bool) (src : string) : string :=
  match src with
  | EmptyString => EmptyString
  | String b src' => appendByte escapeHTML b +:+ appendBytes escapeHTML src'
  end.

(** [appendString] on a string of ASCII bytes; the decoding of UTF-8
    sequences is outside this model ([None]). *)
Definition appendString (escapeHTML : bool) (src : string) : option string :=
  if Strings.forallb Bytes.is_ascii src
  then Some (String Bytes.dquote (appendBytes escapeHTML src +:+ Strings.str1 Bytes.dquote))
  else None.

End Json.

(** ** Package [io]: writers, and the sequencing of writes that may fail *)

Module Io.

(** [io.Writer]: [Write p w] is the writer after the call, and the error
    if the call failed. *)
Class Writer (W E : Type) := Write : string -> W -> W * option E.

(** A block of statements of the form
    [if _, err := ...; err != nil { return err }]. *)
Definition Action (W E : Type) : Type := W -> W * option E.

Definition ok {W E} : Action W E := fun w => (w, None).

Definition seq {W E} (a b : Action W E) : Action W E :=
  fun w => match a w with
           | (w', None) => b w'
           | failed => failed
           end.

Fixpoint for_each {W E A} (l : list A) (body : A -> Action W E) : Action W E :=
  match l with
  | [] => ok
  | x :: l' => seq (body x) (for_each l' body)
  end.

(** [io.WriteString(w, s)] *)
Definition WriteString {W E} `{Writer W E} (s : string) : Action W E := Write s.

(** A writer that keeps what was written and never fails
    (a [bytes.Buffer]). *)
Definition Buffer : Type := string.

#[global] Instance buffer_writer {E} : Writer Buffer E :=
  fun p w => (w +:+ p, None).

(** A writer that accepts [quota] calls and fails afterwards. *)
Record Limited : Type := mkLimited { quota : nat; accepted : string }.

#[global] Instance limited_writer : Writer Limited unit :=
  fun p w =>
    match quota w with
    | O => (w, Some tt)
    | S n => (mkLimited n (accepted w +:+ p), None)
    end.

End Io.

Notation "a ;;; b" := (Io.seq a b) (at level 100, right associativity).

(** ** [export.go] *)

Definition CRLF : string := String Bytes.CR (Strings.str1 Bytes.LF).

(** The line continuation ["\\\n\t"]. *)
Definition continuation : string :=
  String Bytes.backslash (String Bytes.LF (Strings.str1 Bytes.TAB)).

(** [`-H "Authorization: Bearer $MOONSHOT_API_KEY"`] *)
Definition authorization : string :=
  "-H " +:+ Strings.str1 Bytes.dquote +:+ "Authorization: Bearer $MOONSHOT_API_KEY"
  +:+ Strings.str1 Bytes.dquote.

(** The variables of [exportCommand] that the flags are bound to. *)
Record Flags : Type := mkFlags {
  id : Z;
  chatcmpl : string;
  requestID : string;
  output : string;
  directory : string;
  escapeHTML : bool;
  goodCase : bool;
  badCase : bool;
  tags : list string;
  curl : bool;
}.

(** The defaults given to [flags.Int64Var], [flags.StringVar], ... *)
Definition defaultFlags : Flags :=
  {| id := 0; chatcmpl := EmptyString; requestID := EmptyString;
     output := "stdout"; directory := EmptyString; escapeHTML := false;
     goodCase := false; badCase := false; tags := []; curl := false |}.

(** One flag as it occurs on the command line, with its value. *)
Inductive Arg : Type :=
| ArgId (n : Z)
| ArgChatcmpl (s : string)
| ArgRequestid (s : string)
| ArgOutput (s : string)
| ArgDirectory (s : string)
| ArgEscapeHTML (b : bool)
| ArgGood (b : bool)
| ArgBad (b : bool)
| ArgTag (s : string)
| ArgCurl (b : bool).

(** [pflag]: a flag that occurs sets its variable; a [StringArray] flag
    collects the values of its occurrences. *)
Definition setFlag (fl : Flags) (a : Arg) : Flags :=
  let '(mkFlags i c r o d e g b t u) := fl in
  match a with
  | ArgId n => mkFlags n c r o d e g b t u
  | ArgChatcmpl s => mkFlags i s r o d e g b t u
  | ArgRequestid s => mkFlags i c s o d e g b t u
  | ArgOutput s => mkFlags i c r s d e g b t u
  | ArgDirectory s => mkFlags i c r o s e g b t u
  | ArgEscapeHTML v => mkFlags i c r o d v g b t u
  | ArgGood v => mkFlags i c r o d e v b t u
  | ArgBad v => mkFlags i c r o d e g v t u
  | ArgTag s => mkFlags i c r o d e g b (t ++ [s]) u
  | ArgCurl v => mkFlags i c r o d e g b t v
  end.

Definition parseFlags (args : list Arg) : Flags := fold_left setFlag args defaultFlags.

Definition sets_escapeHTML (a : Arg) : bool :=
  match a with ArgEscapeHTML _ => true | _ => false end.

(** Where the JSON document goes. *)
Inductive Sink : Type :=
| Stdout
| Stderr
| File (name : string).

(** [Request]: the fields that [export.go] reads or writes; [other] stands
    for the fields it never names. *)
Record Request {Other : Type} : Type := mkRequest {
  RequestMethod : string;
  RequestPath : string;
  RequestHeader : Sql.NullString;
  RequestBody : Sql.NullString;
  MoonshotUID : Sql.NullString;
  Category : string;
  Tags : list string;
  CreatedAt : Time.Time;
  other : Other;
}.

(** [request.Category = c] and [request.Tags = t] *)
Definition set_Category {Other} (c : string) (r : @Request Other) : @Request Other :=
  {| RequestMethod := RequestMethod r; RequestPath := RequestPath r;
     RequestHeader := RequestHeader r; RequestBody := RequestBody r;
     MoonshotUID := MoonshotUID r; Category := c; Tags := Tags r;
     CreatedAt := CreatedAt r; other := other r |}.

Definition set_Tags {Other} (t : list string) (r : @Request Other) : @Request Other :=
  {| RequestMethod := RequestMethod r; RequestPath := RequestPath r;
     RequestHeader := RequestHeader r; RequestBody := RequestBody r;
     MoonshotUID := MoonshotUID r; Category := Category r; Tags := t;
     CreatedAt := CreatedAt r; other := other r |}.

(** How [Run] ends: by returning, or inside [logFatal]. *)
Inductive Exit {E : Type} : Type :=
| Returned
| LogFatal (err : E).

(** The streams and files that [Run] writes to. *)
Record World {W : Type} : Type := mkWorld {
  stdout : W;
  stderr : W;
  files : gmap string W;
}.

(** ** Sample records *)

Definition absent : Sql.NullString := Sql.mkNullString EmptyString false.
Definition present (s : string) : Sql.NullString := Sql.mkNullString s true.

Definition sampleTime : Time.Time := Time.mkTime 2024 7 4 9 5 0.

(** A chat completion call with the given header block and body. *)
Definition sampleRequest (header body : Sql.NullString) : @Request unit :=
  mkRequest unit "POST" "/v1/chat/completions" header body absent
    EmptyString [] sampleTime tt.

Definition sampleUrl (r : @Request unit) : string :=
  "https://api.moonshot.cn" +:+ RequestPath r.

(** The body [{"a":1}]. *)
Definition sampleBody : string :=
  "{" +:+ Strings.str1 Bytes.dquote +:+ "a" +:+ Strings.str1 Bytes.dquote +:+ ":1}".

(** How often [x] occurs in [l]. *)
Definition occurrences {A} `{EqDecision A} (x : A) (l : list A) : nat :=
  length (filter (fun y => y = x) l).

(** What replacing ["/"] by ["-"] does to one byte. *)
Definition slashToDash (c : ascii) : ascii :=
  if Ascii.eqb c "/"%char then "-"%char else c.

(** A number of [width] decimal digits. *)
Definition fixedWidth (width : nat) (s : string) : bool :=
  (String.length s =? width) && Strings.forallb Bytes.is_digit s.

(** Stand-ins for what lies outside [export.go], for the sample runs. *)
Definition sampleIdent (r : @Request unit) : string := "id=7".

Definition sampleGet (r : @Request unit) (id : Z) (chatcmpl requestID : string)
  : unit + @Request unit := inr r.

Definition sampleJoin (dir name : string) : string := dir +:+ "/" +:+ name.

Definition sampleMarshal (enc : Json.Encoder) (r : @Request unit) : unit + string :=
  inr (Category r +:+ Strings.str1 Bytes.LF).

Definition emptyWorld : @World Io.Buffer := mkWorld Io.Buffer EmptyString EmptyString ∅.

Definition chatRequest : @Request unit := sampleRequest absent (present sampleBody).

(** [--id 7 --good --tag t1] and its curl variant. *)
Definition goodFlags : Flags := parseFlags [ArgId 7; ArgGood true; ArgTag "t1"].
Definition curlFlags : Flags := parseFlags [ArgId 7; ArgCurl true].
Definition curlGoodFlags : Flags :=
  parseFlags [ArgId 7; ArgCurl true; ArgGood true; ArgTag "t1"].

(** A header block whose second line has no colon. *)
Definition brokenBlock : string := "Accept: text/plain" +:+ CRLF +:+ "broken".

(** The number that a string of decimal digits denotes. *)
Definition digitsValue (s : string) : option N :=
  option_map N.of_uint (DecimalString.NilEmpty.uint_of_string s).

(** A time whose stamp has fourteen digits. *)
Definition stampable (t : Time.Time) : Prop :=
  (0 <= Time.Year t <= 9999)%Z /\ Time.Month t < 100 /\ Time.Day t < 100 /\
  Time.Hour t < 100 /\ Time.Minute t < 100 /\ Time.Second t < 100.

(** A header block with two values of one name around another header, and
    one with a continuation line. *)
Definition twoValueBlock : string :=
  "Accept: a" +:+ CRLF +:+ "User-Agent: x" +:+ CRLF +:+ "accept: b".
Definition foldedBlock : string := "X-Trace: a" +:+ CRLF +:+ " b".

(** A header block as it goes over the wire: one line [name: value] for
    each pair, each ended by ["\r\n"]. *)
Definition headerBlock (hs : list (string * string)) : string :=
  Strings.concat (List.map (fun kv => fst kv +:+ ": " +:+ snd kv +:+ CRLF) hs).

(** A header name of token bytes, and a value of value bytes. *)
Definition fieldName (k : string) : bool :=
  negb (String.eqb k EmptyString) &&
  Strings.forallb Textproto.validHeaderFieldByte k.

Definition fieldValue (v : string) : bool :=
  Strings.forallb Textproto.validHeaderValueByte v.

(** What the reader makes of one pair: the name in canonical form, the
    value without the blanks around it. *)
Definition readPair (kv : string * string) : string * string :=
  (Textproto.CanonicalMIMEHeaderKey (fst kv), Textproto.trim (snd kv)).

(** A block with a header that is stripped and names in mixed case. *)
Definition mixedHeaders : list (string * string) :=
  [("content-type", "application/json"); ("content-length", "17");
   ("x-trace", " a "); ("Content-Type", "text/plain")].

(** Reading one more value of a name. *)
Definition addPair (m : Textproto.MIMEHeader) (kv : string * string)
  : Textproto.MIMEHeader :=
  <[fst (readPair kv) := default [] (m !! fst (readPair kv)) ++ [snd (readPair kv)]]> m.

(** A pair that makes a header line which the reader accepts. *)
Definition wellFormed (kv : string * string) : Prop :=
  fieldName (fst kv) = true /\ fieldValue (snd kv) = true.

(** A header block that goes on after a blank line. *)
Definition hiddenBlock : string :=
  "Accept: a" +:+ CRLF +:+ CRLF +:+ "X-Hidden: 1".

(** The text of the given lines, each ended by ["\r\n"]. *)
Definition linesBlock (ls : list string) : string :=
  Strings.concat (List.map (fun l => l +:+ CRLF) ls).

(** What is left of a list of stored pairs when each is read and the two
    names that [writeCurlCommand] deletes are taken out. *)
Definition keptPairs (hs : list (string * string)) : list (string * string) :=
  filter (fun kv : string * string =>
            ~ (fst kv = "Content-Length" \/ fst kv = "X-Unix-Micro"))
    (List.map readPair hs).

(** A line that cannot be a header line: it has no colon. *)
Definition malformedLine (l : string) : Prop :=
  l <> EmptyString /\ Textproto.starts_blank l = false /\
  Strings.forallb (fun c => negb (Ascii.eqb c Bytes.LF)) l = true /\
  Textproto.cut ":"%char l = None.

(** Header blocks: a name spelled with a space before the colon; a stored
    key; a malformed line between two good ones. *)
Definition spacedBlock : string := "Content-Length : 5".
Definition storedKeyBlock : string := "Authorization: Bearer sk-stored-key".
Definition halfBrokenBlock : string :=
  "Accept: text/plain" +:+ CRLF +:+ "broken" +:+ CRLF +:+ "User-Agent: x".

(** The stripped names in other letter cases, among other headers. *)
Definition anyCaseBlock : string :=
  "content-length: 7" +:+ CRLF +:+ "Accept: a" +:+ CRLF +:+
  "X-UNIX-MICRO: 1" +:+ CRLF +:+ "accept: b".

Section ExportGo.

Variable Other : Type.
Local Abbreviation Request := (@Request Other).

(** The methods of [*Request], declared outside [export.go]. *)
Variable Ident : Request -> string.
Variable Url : Request -> string.
Variable IsChat : Request -> bool.

(** [strings.Map(unicode.ToLower, s)], used by [strings.ToLower] on text
    that is not ASCII. *)
Variable unicodeLower : string -> string.

(** The order in which a [range] statement visits a map is not fixed; it
    visits each entry once. *)
Variable range : Textproto.MIMEHeader -> list (string * list string).
Hypothesis range_perm : forall m, range m ≡ₚ map_to_list m.

Set Default Proof Using "Type".

Definition genFilename (request : Request) : string :=
  let ident := Ident request in
  if Strings.HasPrefix ident "chatcmpl=" then
    Strings.TrimPrefix ident "chatcmpl=" +:+ ".json"
  else if Strings.HasPrefix ident "requestid=" then
    "requestid-" +:+ Strings.TrimPrefix ident "requestid=" +:+ ".json"
  else
    (Strings.ToLower unicodeLower (RequestMethod request) +:+
     "-" +:+
     Strings.ReplaceAll (Strings.TrimPrefix (RequestPath request) "/v1/") "/"%char "-" +:+
     (if Sql.Valid (MoonshotUID request)
      then "-" +:+ Sql.String (MoonshotUID request)
      else EmptyString) +:+
     "-" +:+
     Time.Format (CreatedAt request) Time.layout_20060102150405) +:+ ".json".

(** The header map that the loop of [writeCurlCommand] ranges over. *)
Definition curlHeader (request : Request) : Textproto.MIMEHeader :=
  let mimeHeader :=
    fst (Textproto.ReadMIMEHeader
           (Sql.String (RequestHeader request) +:+ CRLF +:+ CRLF)) in
  let mimeHeader := Textproto.Del "Content-Length" mimeHeader in
  Textproto.Del "X-Unix-Micro" mimeHeader.

Section Writers.

Context {W E : Type} `{!Io.Writer W E}.

Definition writeCurlCommand (request : Request) : Io.Action W E :=
  Io.WriteString
    ("curl -X '" +:+ escape (RequestMethod request) +:+
     "' '" +:+ escape (Url request) +:+
     "' " +:+ continuation) ;;;
  Io.WriteString (authorization +:+ continuation) ;;;
  (if Sql.Valid (RequestHeader request) then
     Io.for_each (range (curlHeader request)) (fun kvv =>
       Io.for_each (snd kvv) (fun v =>
         Io.WriteString
           ("-H '" +:+ escape (fst kvv) +:+ ": " +:+ escape v +:+
            "' " +:+ continuation)))
   else Io.ok) ;;;
  (if Sql.Valid (RequestBody request) then
     Io.WriteString ("-d '" +:+ escape (Sql.String (RequestBody request)) +:+ "'")
   else Io.ok) ;;;
  Io.Write (Strings.str1 Bytes.LF).

End Writers.

(** The text that [writeCurlCommand] leaves in an empty buffer. *)
Definition curlText (request : Request) : string :=
  fst (writeCurlCommand (W := Io.Buffer) (E := unit) request EmptyString).

(** The lines of a rendered command, without what ends them. *)
Definition requestLine (request : Request) : string :=
  "curl -X '" +:+ escape (RequestMethod request) +:+
  "' '" +:+ escape (Url request) +:+ "' ".

Definition headerLine (k v : string) : string :=
  "-H '" +:+ escape k +:+ ": " +:+ escape v +:+ "' ".

Definition linesOf (h : list (string * list string)) : list string :=
  flat_map (fun kvv => List.map (headerLine (fst kvv)) (snd kvv)) h.

Definition headerLines (request : Request) : list string :=
  if Sql.Valid (RequestHeader request) then linesOf (range (curlHeader request)) else [].

Definition bodyLine (request : Request) : string :=
  "-d '" +:+ escape (Sql.String (RequestBody request)) +:+ "'".

(** [lines], each followed by the line continuation. *)
Definition continued (lines : list string) : string :=
  Strings.concat (List.map (fun l => l +:+ continuation) lines).

(** A shell state between two words. *)
Definition clean (args : list string) : Shell.St := Shell.mkSt Shell.Unq None args.

(** The arguments that the [-H] lines of a header map contribute. *)
Definition headerArgs (h : list (string * list string)) : list string :=
  flat_map (fun kvv =>
    flat_map (fun v => ["-H"; fst kvv +:+ ": " +:+ v]) (snd kvv)) h.

(** The argument vector that the rendered command denotes. *)
Definition curlArgv (env : string -> string) (request : Request) : list string :=
  ["curl"; "-X"; RequestMethod request; Url request;
   "-H"; "Authorization: Bearer " +:+ env "MOONSHOT_API_KEY"] ++
  (if Sql.Valid (RequestHeader request) then headerArgs (range (curlHeader request)) else []) ++
  (if Sql.Valid (RequestBody request) then ["-d"; Sql.String (RequestBody request)] else []).

(** The (name, value) pairs of a header map, in the order of the loops. *)
Definition headerPairs (h : list (string * list string)) : list (string * string) :=
  flat_map (fun kvv => List.map (pair (fst kvv)) (snd kvv)) h.

(** The lines that the renderer emits for a record: the request line, the
    authorization line, one line for each header value, and the body line
    if a body is stored. *)
Definition emittedLines (request : Request) : list string :=
  requestLine request :: authorization :: headerLines request ++
  (if Sql.Valid (RequestBody request) then [bodyLine request] else []).

(** Lines joined as the specification words it: each line before the last
    ends with the line continuation, the last one with a newline. *)
Fixpoint joined (lines : list string) : string :=
  match lines with
  | [] => EmptyString
  | [l] => l +:+ Strings.str1 Bytes.LF
  | l :: ls => l +:+ continuation +:+ joined ls
  end.

Section Runtime.

Context {W E : Type} `{!Io.Writer W E}.

(** What lies outside [export.go]: the store, the file system, the path
    library and the JSON encoding of a [Request]. *)
Variable GetRequest : Z -> string -> string -> E + Request.
Variable ErrNoRows : E.
Variable errorsIs : E -> E -> bool.
Variable createError : string -> option E.
Variable newFile : W.
Variable filepathJoin : string -> string -> string.
Variable Marshal : Json.Encoder -> Request -> E + string.

(** Lines 46-56: the annotation of a chat record. *)
Definition annotate (fl : Flags) (request : Request) : Request :=
  if IsChat request then
    let request :=
      if goodCase fl then set_Category "goodcase" request
      else if badCase fl then set_Category "badcase" request
      else request in
    if 0 <? length (tags fl) then set_Tags (tags fl) request else request
  else request.

(** Lines 57-80: the choice of the output stream. *)
Definition outputSink (fl : Flags) (request : Request) : Sink :=
  if negb (String.eqb (directory fl) EmptyString) then
    File (filepathJoin (directory fl) (genFilename request))
  else if String.eqb (output fl) "stdout" then Stdout
  else if String.eqb (output fl) "stderr" then Stderr
  else File (output fl).

(** [os.Create] for a file sink; the standard streams are open already.
    Files are regular files, kept under the text of their path: a path
    that names a device or one of the standard streams, and two spellings
    of one file, are outside this model of the file system. *)
Definition openSink (k : Sink) (σ : @World W) : E + @World W :=
  match k with
  | File name =>
      match createError name with
      | Some err => inl err
      | None => inr (mkWorld W (stdout σ) (stderr σ) (<[name := newFile]> (files σ)))
      end
  | _ => inr σ
  end.

Definition writeSink (k : Sink) (a : Io.Action W E) (σ : @World W) : @World W * option E :=
  match k with
  | Stdout => let '(w, e) := a (stdout σ) in (mkWorld W w (stderr σ) (files σ), e)
  | Stderr => let '(w, e) := a (stderr σ) in (mkWorld W (stdout σ) w (files σ), e)
  | File name =>
      let '(w, e) := a (default newFile (files σ !! name)) in
      (mkWorld W (stdout σ) (stderr σ) (<[name := w]> (files σ)), e)
  end.

Definition exitOf (e : option E) : @Exit E :=
  match e with
  | Some err => LogFatal err
  | None => Returned
  end.

(** Lines 81-83: the encoder that [Run] configures. *)
Definition encoderOf (fl : Flags) : Json.Encoder :=
  Json.SetEscapeHTML (escapeHTML fl)
    (Json.SetIndent EmptyString "    " Json.NewEncoder).

(** The [Run] closure of [exportCommand], on the values of the flags: the
    world afterwards, the record in memory (if one was loaded), and how the
    closure ended.  [logFatal] ends the process. *)
Definition Run (fl : Flags) (σ : @World W) : @World W * option Request * @Exit E :=
  match GetRequest (id fl) (chatcmpl fl) (requestID fl) with
  | inl err =>
      (σ, None, LogFatal (if errorsIs err ErrNoRows then ErrNoRows else err))
  | inr request =>
      if curl fl then
        let '(σ', e) := writeSink Stdout (writeCurlCommand request) σ in
        (σ', Some request, exitOf e)
      else
        let request := annotate fl request in
        let sink := outputSink fl request in
        match openSink sink σ with
        | inl err => (σ, Some request, LogFatal err)
        | inr σ' =>
            match Marshal (encoderOf fl) request with
            | inl err => (σ', Some request, LogFatal err)
            | inr text =>
                let '(σ'', e) := writeSink sink (Io.Write text) σ' in
                (σ'', Some request, exitOf e)
            end
        end
  end.

(** [exportCommand]: the command, run on the flags of a command line.
    [cobra] checks the flag groups of lines 100-101 before it calls [Run],
    and refuses some command lines; [Run] is modelled for every value of
    the flags. *)
Definition exportCommand (args : list Arg) (σ : @World W)
  : @World W * option Request * @Exit E :=
  Run (parseFlags args) σ.

(** The arguments of the successive writes of [writeCurlCommand]. *)
Definition curlChunks (request : Request) : list string :=
  (requestLine request +:+ continuation) ::
  (authorization +:+ continuation) ::
  List.map (fun l => l +:+ continuation) (headerLines request) ++
  (if Sql.Valid (RequestBody request) then [bodyLine request] else []) ++
  [Strings.str1 Bytes.LF].

(** No line feed in [s]. *)
Definition noLF (s : string) : bool :=
  Strings.forallb (fun c => negb (Ascii.eqb c Bytes.LF)) s.

(** No slash in [s]. *)
Definition noSlash (s : string) : bool :=
  Strings.forallb (fun c => negb (Ascii.eqb c "/"%char)) s.

(** How often the byte [c] occurs in [s]. *)
Fixpoint countByte (c : ascii) (s : string) : nat :=
  match s with
  | EmptyString => 0
  | String x s' => (if Ascii.eqb x c then 1 else 0) + countByte c s'
  end.

(** The values of the [--tag] flags of a command line, in their order. *)
Definition tagValues (args : list Arg) : list string :=
  flat_map (fun a => match a with ArgTag s => [s] | _ => [] end) args.

(** No name and no value of the map holds a line feed. *)
Definition linesFree (m : Textproto.MIMEHeader) : Prop :=
  map_Forall (fun k vv => noLF k = true /\ Forall (fun v => noLF v = true) vv) m.

(** The command that holds the given header pairs: the request line, the
    authorization line and one [-H] line for each pair in turn, each
    followed by the line continuation, then the body line (if a body is
    stored) and a newline. *)
Definition commandText (request : Request) (pairs : list (string * string)) : string :=
  continued (requestLine request :: authorization ::
             List.map (fun kv => headerLine (fst kv) (snd kv)) pairs) +:+
  (if Sql.Valid (RequestBody request) then bodyLine request else EmptyString) +:+
  Strings.str1 Bytes.LF.

(** * Theorems *)

(** ** Basic facts about strings *)

Lemma app_nil_r (s : string) : s +:+ EmptyString = s.
Proof. induction s as [|c s IH]; [reflexivity|]. change (String c (s +:+ EmptyString) = String c s). by rewrite IH. Qed.

Lemma app_cons (c : ascii) (s t : string) : String c s +:+ t = String c (s +:+ t).
Proof. reflexivity. Qed.

Lemma app_assoc_s (s t u : string) : (s +:+ t) +:+ u = s +:+ (t +:+ u).
Proof. induction s as [|c s IH]; [reflexivity|]. rewrite !app_cons. by rewrite IH. Qed.

Lemma app_snoc (s t : string) (c : ascii) :
  (s +:+ Strings.str1 c) +:+ t = s +:+ String c t.
Proof. by rewrite app_assoc_s. Qed.

(** ** Running the shell over a concatenation *)

Example shell_eval_demo :
  Shell.eval (fun _ => "sk") ("curl -X 'a b' " +:+ Strings.str1 Bytes.dquote +:+ "k: $KEY"
     +:+ Strings.str1 Bytes.dquote +:+ Strings.str1 Bytes.backslash +:+ Strings.str1 Bytes.LF
     +:+ Strings.str1 Bytes.TAB +:+ "-d '" +:+ escape "it's" +:+ "'" +:+ Strings.str1 Bytes.LF)
  = Some ["curl"; "-X"; "a b"; "k: sk"; "-d"; "it's"].
Proof. reflexivity. Qed.

Lemma run_app env (a b : string) : forall st,
  Shell.run env st (a +:+ b) =
  match Shell.run env st a with Some st' => Shell.run env st' b | None => None end.
Proof.
  induction a as [|c a IH]; intros st; [reflexivity|].
  rewrite app_cons. simpl. destruct (Shell.step env st c); [apply IH | reflexivity].
Qed.

(** Inside single quotes, the escaped text of [s] adds exactly [s] to the
    word under construction and leaves the shell inside the quotes. *)
Lemma run_sq_escape env (s : string) : forall w args,
  Shell.run env (Shell.mkSt Shell.Sq (Some w) args) (escape s) =
  Some (Shell.mkSt Shell.Sq (Some (w +:+ s)) args).
Proof.
  induction s as [|c s IH]; intros w args.
  - simpl. by rewrite app_nil_r.
  - unfold escape in *. simpl.
    destruct (Ascii.eqb_spec c Bytes.squote) as [->|Hc].
    + rewrite run_app. simpl.
      unfold Shell.open, Shell.goto, Shell.push, Shell.word. simpl.
      rewrite IH. by rewrite app_snoc.
    + simpl. unfold Shell.step. simpl.
      destruct (Ascii.eqb_spec c Bytes.squote) as [?|_]; [done|].
      unfold Shell.push, Shell.word. simpl. rewrite IH. by rewrite app_snoc.
Qed.

(** A single-quoted literal holding the escaped text of [s], met outside
    quotes, extends the current word by [s] and returns outside quotes. *)
Lemma run_quoted env (s : string) st :
  Shell.mode st = Shell.Unq ->
  Shell.run env st (String Bytes.squote (escape s +:+ Strings.str1 Bytes.squote)) =
  Some (Shell.pushs s Shell.Unq st).
Proof.
  destruct st as [m cw args]. simpl. intros ->.
  unfold Shell.step. simpl. unfold Shell.open, Shell.word. simpl.
  rewrite run_app, run_sq_escape. reflexivity.
Qed.

(** ** The writes of [writeCurlCommand] *)

Lemma concat_app (l1 l2 : list string) :
  Strings.concat (l1 ++ l2) = Strings.concat l1 +:+ Strings.concat l2.
Proof.
  induction l1 as [|x l1 IH]; simpl; [reflexivity|].
  by rewrite IH, app_assoc_s.
Qed.

Lemma buffer_for_each {A} (f : A -> string) (l : list A) (w : Io.Buffer) :
  Io.for_each (E := unit) l (fun x => Io.WriteString (f x)) w =
  (w +:+ Strings.concat (List.map f l), None).
Proof.
  revert w. induction l as [|x l IH]; intros w; simpl.
  - unfold Io.ok. by rewrite app_nil_r.
  - unfold Io.seq, Io.WriteString, Io.Write, Io.buffer_writer.
    rewrite IH. by rewrite app_assoc_s.
Qed.

Lemma buffer_header_loop (h : list (string * list string)) (w : Io.Buffer) :
  Io.for_each (E := unit) h (fun kvv =>
    Io.for_each (snd kvv) (fun v =>
      Io.WriteString ("-H '" +:+ escape (fst kvv) +:+ ": " +:+ escape v +:+
                      "' " +:+ continuation))) w =
  (w +:+ continued (linesOf h), None).
Proof.
  revert w. induction h as [|[k vv] h IH]; intros w; simpl.
  - unfold Io.ok, continued. simpl. by rewrite app_nil_r.
  - unfold Io.seq.
    rewrite (buffer_for_each (fun v => "-H '" +:+ escape k +:+ ": " +:+ escape v +:+
                                       "' " +:+ continuation)).
    rewrite IH. unfold continued, linesOf. simpl.
    rewrite List.map_app, concat_app, List.map_map, app_assoc_s.
    do 4 f_equal. apply List.map_ext. intros v. unfold headerLine.
    by rewrite !app_assoc_s.
Qed.

(** On a writer that never fails, the command is the request line, the
    authorization line and the header lines, each followed by the line
    continuation, then the body line if a body is stored, then a newline. *)
Lemma curlText_eq (request : Request) :
  curlText request =
  continued (requestLine request :: authorization :: headerLines request) +:+
  (if Sql.Valid (RequestBody request) then bodyLine request else EmptyString) +:+
  Strings.str1 Bytes.LF.
Proof.
  unfold curlText, writeCurlCommand, headerLines, continued, requestLine, bodyLine.
  unfold Io.seq at 1 2. unfold Io.WriteString at 1 2. unfold Io.Write at 1 2, Io.buffer_writer at 1 2.
  simpl Strings.concat.
  destruct (Sql.Valid (RequestHeader request)).
  - unfold Io.seq at 1. rewrite buffer_header_loop.
    destruct (Sql.Valid (RequestBody request)); unfold Io.seq, Io.ok, Io.WriteString, Io.Write, Io.buffer_writer; simpl;
      unfold continued; rewrite !app_assoc_s; reflexivity.
  - unfold Io.seq at 1. unfold Io.ok at 1.
    destruct (Sql.Valid (RequestBody request)); unfold Io.seq, Io.ok, Io.WriteString, Io.Write, Io.buffer_writer; simpl;
      rewrite !app_assoc_s; reflexivity.
Qed.

(** On a writer that never fails, [writeCurlCommand] returns no error. *)
Lemma curl_no_error (request : Request) (w : Io.Buffer) :
  snd (writeCurlCommand (E := unit) request w) = None.
Proof.
  unfold writeCurlCommand.
  unfold Io.seq at 1 2. unfold Io.WriteString at 1 2. unfold Io.Write at 1 2, Io.buffer_writer at 1 2.
  destruct (Sql.Valid (RequestHeader request)).
  - unfold Io.seq at 1. rewrite buffer_header_loop.
    destruct (Sql.Valid (RequestBody request)); reflexivity.
  - destruct (Sql.Valid (RequestBody request)); reflexivity.
Qed.

(** ** The rendered command as the shell reads it *)

Local Arguments String.append : simpl nomatch.

Ltac shell_simpl :=
  simpl;
  unfold Shell.open, Shell.end_word, Shell.push, Shell.pushs, Shell.goto, Shell.word;
  simpl.

Lemma run_sq_escape_app env (s rest w : string) (args : list string) :
  Shell.run env (Shell.mkSt Shell.Sq (Some w) args) (escape s +:+ rest) =
  Shell.run env (Shell.mkSt Shell.Sq (Some (w +:+ s)) args) rest.
Proof. by rewrite run_app, run_sq_escape. Qed.

Ltac shell_done :=
  do 2 f_equal; rewrite <- ?List.app_assoc; simpl; rewrite ?List.app_nil_r; reflexivity.

Lemma run_requestLine env (request : Request) (args : list string) :
  Shell.run env (clean args) (requestLine request +:+ continuation) =
  Some (clean (args ++ ["curl"; "-X"; RequestMethod request; Url request])).
Proof.
  unfold requestLine, clean. rewrite !app_assoc_s.
  shell_simpl. rewrite run_sq_escape_app.
  shell_simpl. rewrite run_sq_escape_app. shell_simpl.
  shell_done.
Qed.

(** The shell only adds words after those it has completed. *)
Lemma step_frame env (m : Shell.Mode) (w : option string) (a args : list string) (c : ascii) :
  Shell.step env (Shell.mkSt m w (args ++ a)) c =
  match Shell.step env (Shell.mkSt m w a) c with
  | Some st => Some (Shell.mkSt (Shell.mode st) (Shell.cur st) (args ++ Shell.argv st))
  | None => None
  end.
Proof.
  unfold Shell.step, Shell.step_dq, Shell.end_word, Shell.open, Shell.goto,
    Shell.push, Shell.pushs, Shell.word.
  cbn [Shell.mode Shell.cur Shell.argv].
  destruct m; repeat case_match; try reflexivity; try discriminate;
    cbn [Shell.mode Shell.cur Shell.argv]; by rewrite ?List.app_assoc.
Qed.

Lemma run_frame env (text : string) : forall m w a args,
  Shell.run env (Shell.mkSt m w (args ++ a)) text =
  match Shell.run env (Shell.mkSt m w a) text with
  | Some st => Some (Shell.mkSt (Shell.mode st) (Shell.cur st) (args ++ Shell.argv st))
  | None => None
  end.
Proof.
  induction text as [|c text IH]; intros m w a args; [reflexivity|].
  cbn [Shell.run]. rewrite step_frame.
  destruct (Shell.step env (Shell.mkSt m w a) c) as [[m' w' a']|]; [|reflexivity].
  apply IH.
Qed.

Lemma run_authorization env (args : list string) :
  Shell.run env (clean args) (authorization +:+ continuation) =
  Some (clean (args ++ ["-H"; "Authorization: Bearer " +:+ env "MOONSHOT_API_KEY"])).
Proof.
  unfold clean.
  pose proof (run_frame env (authorization +:+ continuation) Shell.Unq None [] args) as Hf.
  rewrite List.app_nil_r in Hf. rewrite Hf. clear Hf.
  assert (Hrun : Shell.run env (Shell.mkSt Shell.Unq None []) (authorization +:+ continuation) =
                 Some (Shell.mkSt Shell.Unq None
                         ["-H"; "Authorization: Bearer " +:+ env "MOONSHOT_API_KEY"]))
    by (vm_compute; reflexivity).
  by rewrite Hrun.
Qed.

Lemma run_headerLine env (k v : string) (args : list string) :
  Shell.run env (clean args) (headerLine k v +:+ continuation) =
  Some (clean (args ++ ["-H"; k +:+ ": " +:+ v])).
Proof.
  unfold headerLine, clean. rewrite !app_assoc_s.
  shell_simpl. rewrite run_sq_escape_app.
  shell_simpl. rewrite run_sq_escape_app. shell_simpl.
  do 2 f_equal. rewrite List.app_nil_r, <- List.app_assoc. simpl.
  do 3 f_equal. by rewrite !app_snoc.
Qed.

Lemma run_headerLines env (h : list (string * list string)) : forall args,
  Shell.run env (clean args) (continued (linesOf h)) =
  Some (clean (args ++ headerArgs h)).
Proof.
  induction h as [|[k vv] h IH]; intros args.
  - simpl. by rewrite List.app_nil_r.
  - unfold continued, linesOf, headerArgs in *. simpl.
    rewrite List.map_app, concat_app, run_app.
    assert (Hvv : forall args',
      Shell.run env (clean args')
        (Strings.concat (List.map (fun l => l +:+ continuation) (List.map (headerLine k) vv))) =
      Some (clean (args' ++ flat_map (fun v => ["-H"; k +:+ ": " +:+ v]) vv))).
    { clear IH. induction vv as [|v vv IHvv]; intros args'.
      - simpl. by rewrite List.app_nil_r.
      - cbn [List.map Strings.concat flat_map]. rewrite run_app, run_headerLine, IHvv.
        by rewrite <- List.app_assoc. }
    rewrite Hvv, IH. by rewrite <- List.app_assoc.
Qed.

Lemma run_bodyLine env (request : Request) (args : list string) :
  Shell.run env (clean args) (bodyLine request +:+ Strings.str1 Bytes.LF) =
  Some (Shell.mkSt Shell.Done None (args ++ ["-d"; Sql.String (RequestBody request)])).
Proof.
  unfold bodyLine, clean. rewrite !app_assoc_s.
  shell_simpl. rewrite run_sq_escape_app. shell_simpl. shell_done.
Qed.

Lemma eval_curlText env (request : Request) :
  Shell.eval env (curlText request) = Some (curlArgv env request).
Proof.
  rewrite curlText_eq. unfold Shell.eval, curlArgv, headerLines.
  change Shell.init with (clean []).
  unfold continued. cbn [List.map Strings.concat].
  rewrite !app_assoc_s.
  rewrite <- (app_assoc_s (requestLine request) continuation), run_app, run_requestLine.
  rewrite <- (app_assoc_s authorization continuation), run_app, run_authorization.
  fold (continued (if Sql.Valid (RequestHeader request)
                   then linesOf (range (curlHeader request)) else [])).
  rewrite run_app.
  assert (Hh : forall args,
    Shell.run env (clean args)
      (continued (if Sql.Valid (RequestHeader request)
                  then linesOf (range (curlHeader request)) else [])) =
    Some (clean (args ++ (if Sql.Valid (RequestHeader request)
                          then headerArgs (range (curlHeader request)) else [])))).
  { intros args. destruct (Sql.Valid (RequestHeader request)).
    - apply run_headerLines.
    - simpl. by rewrite List.app_nil_r. }
  rewrite Hh.
  destruct (Sql.Valid (RequestBody request)).
  - rewrite run_bodyLine. unfold Shell.finish. simpl.
    rewrite <- ?List.app_assoc. reflexivity.
  - shell_simpl. unfold Shell.finish. simpl.
    rewrite ?List.app_nil_r, <- ?List.app_assoc. reflexivity.
Qed.

Lemma linesOf_pairs (h : list (string * list string)) :
  linesOf h = List.map (fun kv => headerLine (fst kv) (snd kv)) (headerPairs h).
Proof.
  unfold linesOf, headerPairs.
  induction h as [|[k vv] h IH]; simpl; [reflexivity|].
  rewrite List.map_app, List.map_map, IH. reflexivity.
Qed.

(** ** C1: the escaping of single quotes *)

Lemma eval_quoted env (s : string) :
  Shell.eval env (String Bytes.squote (escape s +:+ Strings.str1 Bytes.squote)) = Some [s].
Proof.
  unfold Shell.eval. rewrite (run_quoted env s Shell.init eq_refl). reflexivity.
Qed.

(** C1. [escape] replaces every single quote by the five bytes ['"'"'] and
    keeps every other byte; for every string [s] (with or without single
    quotes) the text ['escape s'] is read by the shell as the one word [s];
    and the rendered command is read by the shell as [curl] with the method,
    the URL, each header name and value and the body as they are stored, so
    the escaping is applied to all of them. *)
Theorem escape_single_quotes_roundtrip :
  (escape EmptyString = EmptyString /\
   forall c s, escape (String c s) =
     (if Ascii.eqb c Bytes.squote then quote_splice else Strings.str1 c) +:+ escape s) /\
  (forall env s,
     Shell.eval env (String Bytes.squote (escape s +:+ Strings.str1 Bytes.squote)) = Some [s]) /\
  (forall env request,
     curlText request =
       continued (requestLine request :: authorization :: headerLines request) +:+
       (if Sql.Valid (RequestBody request) then bodyLine request else EmptyString) +:+
       Strings.str1 Bytes.LF /\
     requestLine request =
       "curl -X '" +:+ escape (RequestMethod request) +:+
       "' '" +:+ escape (Url request) +:+ "' " /\
     headerLines request =
       (if Sql.Valid (RequestHeader request)
        then List.map (fun kv => "-H '" +:+ escape (fst kv) +:+ ": " +:+ escape (snd kv) +:+ "' ")
               (headerPairs (range (curlHeader request)))
        else []) /\
     bodyLine request = "-d '" +:+ escape (Sql.String (RequestBody request)) +:+ "'" /\
     Shell.eval env (curlText request) = Some (curlArgv env request)).
Proof.
  split; [split|split].
  - reflexivity.
  - intros c s. unfold escape. simpl. by destruct (Ascii.eqb c Bytes.squote).
  - apply eval_quoted.
  - intros env request.
    split; [apply curlText_eq|]. split; [reflexivity|].
    split; [|split; [reflexivity | apply eval_curlText]].
    unfold headerLines. destruct (Sql.Valid (RequestHeader request)); [|reflexivity].
    apply linesOf_pairs.
Qed.

(** ** C2: how the lines of the command end *)

Lemma joined_snoc (ls : list string) (l : string) :
  joined (ls ++ [l]) = continued ls +:+ l +:+ Strings.str1 Bytes.LF.
Proof.
  induction ls as [|x ls IH]; [reflexivity|].
  change (joined ((x :: ls) ++ [l])) with (joined (x :: (ls ++ [l]))).
  destruct ls as [|y ls].
  - simpl in *. unfold continued. simpl. by rewrite !app_assoc_s.
  - change (joined (x :: (y :: ls) ++ [l]))
      with (x +:+ continuation +:+ joined ((y :: ls) ++ [l])).
    rewrite IH. unfold continued. cbn [List.map Strings.concat].
    by rewrite !app_assoc_s.
Qed.

(** C2, amended. The request line, the authorization line and every header
    line are each followed by the line continuation, also the last of them
    when no body is stored; a stored body adds the line [-d '...'] with no
    continuation; a newline ends the output.  So with a stored body every
    line before the last ends with the continuation and the last one with a
    plain newline, and the record of the example (method POST, body
    [{"a":1}], no header block) gives exactly three lines. *)
Theorem curl_line_endings (request : Request) :
  curlText request =
    continued (requestLine request :: authorization :: headerLines request) +:+
    (if Sql.Valid (RequestBody request) then bodyLine request else EmptyString) +:+
    Strings.str1 Bytes.LF /\
  (Sql.Valid (RequestBody request) = true ->
   curlText request = joined (emittedLines request)) /\
  (forall uid category tags created o,
     let r := mkRequest Other "POST" "/v1/chat/completions" absent (present sampleBody)
                uid category tags created o in
     curlText r =
       joined ["curl -X 'POST' '" +:+ escape (Url r) +:+ "' ";
               authorization;
               "-d '" +:+ sampleBody +:+ "'"]).
Proof.
  split; [apply curlText_eq|]. split.
  - intros Hbody. rewrite curlText_eq. unfold emittedLines. rewrite Hbody.
    change (requestLine request :: authorization :: headerLines request ++ [bodyLine request])
      with ((requestLine request :: authorization :: headerLines request) ++ [bodyLine request]).
    by rewrite joined_snoc.
  - intros uid category tags created o r. rewrite curlText_eq.
    unfold continued, requestLine, headerLines, bodyLine.
    change (escape (RequestMethod r)) with "POST".
    change (escape (Sql.String (RequestBody r))) with sampleBody.
    cbn [RequestHeader RequestBody r absent present Sql.Valid List.map Strings.concat joined].
    rewrite !app_assoc_s, ?app_nil_r. reflexivity.
Qed.

(** ** The header pairs of a map *)

Lemma occurrences_perm {A} `{EqDecision A} (x : A) (l1 l2 : list A) :
  l1 ≡ₚ l2 -> occurrences x l1 = occurrences x l2.
Proof. intros Hp. unfold occurrences. by rewrite Hp. Qed.

Lemma occurrences_app {A} `{EqDecision A} (x : A) (l1 l2 : list A) :
  occurrences x (l1 ++ l2) = occurrences x l1 + occurrences x l2.
Proof. unfold occurrences. by rewrite filter_app, length_app. Qed.

Lemma occurrences_pair (k i v : string) (vv : list string) :
  occurrences (k, v) (List.map (pair i) vv) =
  if decide (i = k) then occurrences v vv else 0.
Proof.
  unfold occurrences. induction vv as [|x vv IH]; simpl.
  - by destruct (decide (i = k)).
  - rewrite !filter_cons. destruct (decide (i = k)) as [->|Hik].
    + destruct (decide (x = v)) as [->|Hxv].
      * rewrite decide_True by reflexivity. simpl. by rewrite IH.
      * rewrite decide_False by congruence. exact IH.
    + rewrite decide_False by congruence. exact IH.
Qed.

(** Each value of a header map gives one pair, whatever the order in which
    the map is visited. *)
Lemma occurrences_headerPairs (m : Textproto.MIMEHeader) (k v : string) :
  occurrences (k, v) (headerPairs (map_to_list m)) = occurrences v (default [] (m !! k)).
Proof.
  induction m as [|i x m Hi IH] using map_ind.
  - rewrite map_to_list_empty, lookup_empty. reflexivity.
  - assert (Hp : headerPairs (map_to_list (<[i:=x]> m)) ≡ₚ
                 List.map (pair i) x ++ headerPairs (map_to_list m)).
    { unfold headerPairs. rewrite (map_to_list_insert m i x Hi). reflexivity. }
    rewrite (occurrences_perm _ _ _ Hp), occurrences_app, occurrences_pair, IH.
    destruct (decide (i = k)) as [->|Hik].
    + rewrite lookup_insert_eq, Hi. simpl. unfold occurrences at 2. simpl. lia.
    + by rewrite lookup_insert_ne.
Qed.

Lemma headerPairs_key (h : list (string * list string)) (k v : string) :
  In (k, v) (headerPairs h) -> exists vv, In (k, vv) h.
Proof.
  unfold headerPairs. rewrite in_flat_map. intros [[k' vv] [Hin Hkv]].
  simpl in Hkv. apply in_map_iff in Hkv as [v' [Heq _]].
  inversion Heq; subst. by exists vv.
Qed.

Lemma curlHeader_lookup (request : Request) (k : string) :
  curlHeader request !! k =
  if decide (k = "Content-Length" \/ k = "X-Unix-Micro") then None
  else fst (Textproto.ReadMIMEHeader
              (Sql.String (RequestHeader request) +:+ CRLF +:+ CRLF)) !! k.
Proof.
  unfold curlHeader, Textproto.Del.
  change (Textproto.CanonicalMIMEHeaderKey "X-Unix-Micro") with "X-Unix-Micro".
  change (Textproto.CanonicalMIMEHeaderKey "Content-Length") with "Content-Length".
  destruct (decide (k = "Content-Length" \/ k = "X-Unix-Micro")) as [[->| ->]|Hk].
  - rewrite lookup_delete_ne by discriminate. apply lookup_delete_eq.
  - apply lookup_delete_eq.
  - rewrite !lookup_delete_ne by (intros Heq; apply Hk; auto). reflexivity.
Qed.

(** ** C5: the file name *)

Lemma HasPrefix_app (p s : string) : Strings.HasPrefix (p +:+ s) p = true.
Proof.
  induction p as [|c p IH]; [reflexivity|].
  rewrite app_cons. simpl. by rewrite Ascii.eqb_refl, IH.
Qed.

Lemma drop_app (p s : string) : Strings.drop (String.length p) (p +:+ s) = s.
Proof. induction p as [|c p IH]; [reflexivity|]. rewrite app_cons. exact IH. Qed.

Lemma TrimPrefix_app (p s : string) : Strings.TrimPrefix (p +:+ s) p = s.
Proof. unfold Strings.TrimPrefix. by rewrite HasPrefix_app, drop_app. Qed.

Lemma ReplaceAll_byte (s : string) (old new : ascii) :
  Strings.ReplaceAll s old (Strings.str1 new) =
  Strings.map (fun c => if Ascii.eqb c old then new else c) s.
Proof.
  induction s as [|c s IH]; [reflexivity|].
  simpl. rewrite IH. by destruct (Ascii.eqb c old).
Qed.

Lemma length_app_s (s t : string) :
  String.length (s +:+ t) = String.length s + String.length t.
Proof. induction s as [|c s IH]; [reflexivity|]. rewrite app_cons. simpl. by rewrite IH. Qed.

Lemma forallb_app_s (p : ascii -> bool) (s t : string) :
  Strings.forallb p (s +:+ t) = Strings.forallb p s && Strings.forallb p t.
Proof.
  induction s as [|c s IH]; [reflexivity|].
  rewrite app_cons. simpl. rewrite IH. by rewrite andb_assoc.
Qed.

Lemma fixedWidth_app (n m : nat) (s t : string) :
  fixedWidth n s = true -> fixedWidth m t = true -> fixedWidth (n + m) (s +:+ t) = true.
Proof.
  unfold fixedWidth. rewrite !andb_true_iff, !Nat.eqb_eq.
  intros [Hs Hds] [Ht Hdt]. rewrite length_app_s, forallb_app_s, Hs, Ht, Hds, Hdt. auto.
Qed.

Lemma appendInt_upto (width : nat) (bound : Z) :
  List.forallb (fun n => fixedWidth width (Time.appendInt (Z.of_nat n) width))
    (seq 0 (Z.to_nat bound)) = true ->
  forall x : Z, (0 <= x < bound)%Z -> fixedWidth width (Time.appendInt x width) = true.
Proof.
  intros Hall x Hx. rewrite List.forallb_forall in Hall.
  rewrite <- (Z2Nat.id x) by lia. apply Hall. apply in_seq. lia.
Qed.

(** A year from 0 to 9999 is written with four digits. *)
Lemma appendInt_year (x : Z) :
  (0 <= x <= 9999)%Z -> fixedWidth 4 (Time.appendInt x 4) = true.
Proof.
  intros Hx. apply (appendInt_upto 4 10000); [vm_compute; reflexivity | lia].
Qed.

(** A month, day, hour, minute or second is written with two digits. *)
Lemma appendInt_field (n : nat) :
  n < 100 -> fixedWidth 2 (Time.appendInt (Z.of_nat n) 2) = true.
Proof.
  intros Hn. apply (appendInt_upto 2 100); [vm_compute; reflexivity | lia].
Qed.

Lemma Format_stamp (t : Time.Time) :
  Time.Format t Time.layout_20060102150405 =
  Time.appendInt (Time.Year t) 4 +:+
  Time.appendInt (Z.of_nat (Time.Month t)) 2 +:+
  Time.appendInt (Z.of_nat (Time.Day t)) 2 +:+
  Time.appendInt (Z.of_nat (Time.Hour t)) 2 +:+
  Time.appendInt (Z.of_nat (Time.Minute t)) 2 +:+
  Time.appendInt (Z.of_nat (Time.Second t)) 2.
Proof.
  unfold Time.Format, Time.layout_20060102150405.
  cbn [List.map Strings.concat Time.appendChunk]. by rewrite app_nil_r.
Qed.

(** C5. The file name of a record follows a fixed precedence: for an
    identifier [chatcmpl=<id>] it is [<id>.json], whatever the other fields;
    else for an identifier [requestid=<id>] it is [requestid-<id>.json];
    else it is the lower-cased method, a hyphen, the path without its
    [/v1/] prefix and with each [/] turned into [-], a hyphen and the UID if
    there is one, a hyphen, the creation time as YYYYMMDDHHMMSS (fourteen
    digits for the years 0 to 9999), and [.json].  The name is a function of
    the identifier, the method, the path, the UID and the creation time. *)
Theorem genFilename_precedence :
  (forall request cid,
     Ident request = "chatcmpl=" +:+ cid -> genFilename request = cid +:+ ".json") /\
  (forall request rid,
     Ident request = "requestid=" +:+ rid ->
     genFilename request = "requestid-" +:+ rid +:+ ".json") /\
  (forall request,
     Strings.HasPrefix (Ident request) "chatcmpl=" = false ->
     Strings.HasPrefix (Ident request) "requestid=" = false ->
     genFilename request =
       Strings.ToLower unicodeLower (RequestMethod request) +:+ "-" +:+
       Strings.map slashToDash (Strings.TrimPrefix (RequestPath request) "/v1/") +:+
       (if Sql.Valid (MoonshotUID request)
        then "-" +:+ Sql.String (MoonshotUID request) else EmptyString) +:+
       "-" +:+ Time.Format (CreatedAt request) Time.layout_20060102150405 +:+ ".json") /\
  (forall method, Strings.forallb Bytes.is_ascii method = true ->
     Strings.ToLower unicodeLower method = Strings.map Bytes.to_lower method) /\
  (forall path, Strings.TrimPrefix ("/v1/" +:+ path) "/v1/" = path) /\
  (forall t,
     Time.Format t Time.layout_20060102150405 =
       Time.appendInt (Time.Year t) 4 +:+
       Time.appendInt (Z.of_nat (Time.Month t)) 2 +:+
       Time.appendInt (Z.of_nat (Time.Day t)) 2 +:+
       Time.appendInt (Z.of_nat (Time.Hour t)) 2 +:+
       Time.appendInt (Z.of_nat (Time.Minute t)) 2 +:+
       Time.appendInt (Z.of_nat (Time.Second t)) 2 /\
     ((0 <= Time.Year t <= 9999)%Z ->
      Time.Month t < 100 -> Time.Day t < 100 -> Time.Hour t < 100 ->
      Time.Minute t < 100 -> Time.Second t < 100 ->
      fixedWidth 14 (Time.Format t Time.layout_20060102150405) = true)) /\
  (forall r1 r2 : Request,
     Ident r1 = Ident r2 -> RequestMethod r1 = RequestMethod r2 ->
     RequestPath r1 = RequestPath r2 -> MoonshotUID r1 = MoonshotUID r2 ->
     CreatedAt r1 = CreatedAt r2 -> genFilename r1 = genFilename r2).
Proof.
  split; [|split; [|split; [|split; [|split; [|split]]]]].
  - intros request cid Hid. unfold genFilename. cbv zeta.
    by rewrite Hid, HasPrefix_app, TrimPrefix_app.
  - intros request rid Hid. unfold genFilename. cbv zeta.
    rewrite Hid, TrimPrefix_app, HasPrefix_app.
    change (Strings.HasPrefix ("requestid=" +:+ rid) "chatcmpl=") with false.
    cbv iota. rewrite ?app_assoc_s. reflexivity.
  - intros request H1 H2. unfold genFilename. cbv zeta. rewrite H1, H2.
    change "-" with (Strings.str1 "-"%char) at 2.
    rewrite ReplaceAll_byte. rewrite ?app_assoc_s. reflexivity.
  - intros method Hascii. unfold Strings.ToLower. by rewrite Hascii.
  - apply (TrimPrefix_app "/v1/").
  - intros t. split; [apply Format_stamp|].
    intros Hy Hmo Hd Hh Hmi Hs. rewrite Format_stamp.
    apply (fixedWidth_app 4 10); [by apply appendInt_year|].
    apply (fixedWidth_app 2 8); [by apply appendInt_field|].
    apply (fixedWidth_app 2 6); [by apply appendInt_field|].
    apply (fixedWidth_app 2 4); [by apply appendInt_field|].
    apply (fixedWidth_app 2 2); by apply appendInt_field.
  - intros r1 r2 Hi Hm Hp Hu Hc. unfold genFilename. by rewrite Hi, Hm, Hp, Hu, Hc.
Qed.

(** ** C6: the default of [--escape-html] *)

Lemma escapeHTML_unset (args : list Arg) : forall fl,
  List.forallb (fun a => negb (sets_escapeHTML a)) args = true ->
  escapeHTML (fold_left setFlag args fl) = escapeHTML fl.
Proof.
  induction args as [|a args IH]; intros fl Hun; [reflexivity|].
  simpl in Hun. apply andb_true_iff in Hun as [Ha Hun].
  simpl. rewrite IH by exact Hun. by destruct fl, a.
Qed.

(** C6, amended. When the command line does not set [--escape-html], the
    encoder is configured with HTML escaping off, and the bytes [<], [>]
    and [&] of a string value are written as they are; escaping is on only
    when the caller turns the flag on (the last occurrence decides). *)
Theorem escapeHTML_default_off :
  (forall args,
     List.forallb (fun a => negb (sets_escapeHTML a)) args = true ->
     encoderOf (parseFlags args) = Json.mkEncoder EmptyString "    " false) /\
  (forall args b,
     encoderOf (parseFlags (args ++ [ArgEscapeHTML b])) =
     Json.mkEncoder EmptyString "    " b) /\
  Json.appendString false "<&>" =
    Some (String Bytes.dquote ("<&>" +:+ Strings.str1 Bytes.dquote)) /\
  Json.appendString true "<&>" =
    Some (String Bytes.dquote
            (Json.esc "u"%char +:+ "003c" +:+ Json.esc "u"%char +:+ "0026" +:+
             Json.esc "u"%char +:+ "003e" +:+ Strings.str1 Bytes.dquote)).
Proof.
  split; [|split; [|split]].
  - intros args Hun. unfold encoderOf, parseFlags, Json.SetEscapeHTML. simpl.
    by rewrite escapeHTML_unset.
  - intros args b. unfold encoderOf, parseFlags, Json.SetEscapeHTML. simpl.
    rewrite fold_left_app. simpl. by destruct (fold_left setFlag args defaultFlags).
  - reflexivity.
  - reflexivity.
Qed.

(** ** C7: the annotation of a record *)

(** C7. A record that is not a chat record is left as it is, whatever the
    flags.  On a chat record [--good] sets the category to [goodcase] and
    [--bad] to [badcase], over any category it had; one or more [--tag]
    values replace the whole tag sequence; with neither flag and no tag the
    record is unchanged.  No other field changes, and in JSON mode this
    annotated record is the one that is encoded. *)
Theorem annotation_chat_only (fl : Flags) (request : Request) :
  (IsChat request = false -> annotate fl request = request) /\
  (IsChat request = true ->
     Category (annotate fl request) =
       (if goodCase fl then "goodcase"
        else if badCase fl then "badcase" else Category request) /\
     Tags (annotate fl request) =
       (match tags fl with [] => Tags request | _ :: _ => tags fl end)) /\
  (goodCase fl = false -> badCase fl = false -> tags fl = [] ->
     annotate fl request = request) /\
  set_Tags (Tags request) (set_Category (Category request) (annotate fl request)) = request /\
  (forall σ, GetRequest (id fl) (chatcmpl fl) (requestID fl) = inr request ->
     curl fl = false ->
     snd (fst (Run fl σ)) = Some (annotate fl request)).
Proof.
  split; [|split; [|split; [|split]]].
  - intros Hchat. unfold annotate. by rewrite Hchat.
  - intros Hchat. unfold annotate. rewrite Hchat.
    destruct (goodCase fl), (badCase fl), (tags fl); split; reflexivity.
  - intros Hg Hb Ht. unfold annotate. rewrite Hg, Hb, Ht.
    by destruct (IsChat request).
  - unfold annotate. destruct request.
    destruct (IsChat _), (goodCase fl), (badCase fl), (tags fl); reflexivity.
  - intros σ Hget Hcurl. unfold Run. rewrite Hget, Hcurl.
    destruct (openSink _ σ) as [err|σ']; [reflexivity|].
    destruct (Marshal _ _) as [err|text]; [reflexivity|].
    by destruct (writeSink _ _ σ').
Qed.

(** ** C10: curl mode leaves the record alone *)

(** C10. In curl mode [Run] writes the curl command of the record as it was
    loaded to the standard output and returns: the record in memory is
    unchanged, whether it is a chat record or not, and neither the record
    nor what is written depends on the flags [--good], [--bad] and [--tag]
    (nor on any flag that does not select the record). *)
Theorem curl_mode_skips_annotation (fl : Flags) (request : Request) (σ : @World W) :
  GetRequest (id fl) (chatcmpl fl) (requestID fl) = inr request ->
  curl fl = true ->
  Run fl σ =
    (mkWorld W (fst (writeCurlCommand request (stdout σ))) (stderr σ) (files σ),
     Some request,
     exitOf (snd (writeCurlCommand request (stdout σ)))) /\
  (forall fl', id fl' = id fl -> chatcmpl fl' = chatcmpl fl ->
     requestID fl' = requestID fl -> curl fl' = true ->
     Run fl' σ = Run fl σ).
Proof.
  intros Hget Hcurl. split.
  - unfold Run. rewrite Hget, Hcurl. unfold writeSink.
    by destruct (writeCurlCommand request (stdout σ)).
  - intros fl' Hid Hc Hr Hcurl'. unfold Run.
    by rewrite Hid, Hc, Hr, Hget, Hcurl, Hcurl'.
Qed.

(** ** The terminator of the header block *)

Lemma cons_hd_app (c : ascii) (ls : list string) (l : string) :
  ls <> [] -> Textproto.cons_hd c (ls ++ [l]) = Textproto.cons_hd c ls ++ [l].
Proof. destruct ls as [|x ls]; [congruence|reflexivity]. Qed.

Lemma cons_hd_nonempty (c : ascii) (ls : list string) : Textproto.cons_hd c ls <> [].
Proof. by destruct ls. Qed.

(** A text that ends with two line ends has a blank last line, after at
    least one other line. *)
Lemma lines_terminated (n : nat) : forall s, String.length s <= n ->
  exists ls, ls <> [] /\
    Textproto.lines (s +:+ CRLF +:+ CRLF) = ls ++ [EmptyString].
Proof.
  induction n as [|n IH]; intros s Hlen.
  - destruct s; [|simpl in Hlen; lia]. by exists [EmptyString].
  - destruct s as [|c s]; [by exists [EmptyString]|].
    simpl in Hlen. rewrite app_cons. cbn [Textproto.lines].
    destruct (Ascii.eqb c Bytes.LF).
    { destruct (IH s ltac:(lia)) as (ls & Hne & Heq).
      exists (EmptyString :: ls). by rewrite Heq. }
    destruct s as [|c' s].
    { assert (Hc : Ascii.eqb c Bytes.CR && Ascii.eqb Bytes.CR Bytes.LF = false)
        by (by rewrite andb_false_r).
      change (EmptyString +:+ CRLF +:+ CRLF)
        with (String Bytes.CR (String Bytes.LF (CRLF))).
      cbv beta iota. rewrite Hc. by exists [Strings.str1 c]. }
    rewrite app_cons. cbv beta iota.
    destruct (Ascii.eqb c Bytes.CR && Ascii.eqb c' Bytes.LF).
    { simpl in Hlen. destruct (IH s ltac:(lia)) as (ls & Hne & Heq).
      exists (EmptyString :: ls). by rewrite Heq. }
    rewrite <- app_cons.
    destruct (IH (String c' s) ltac:(simpl in *; lia)) as (ls & Hne & Heq).
    exists (Textproto.cons_hd c ls). split; [apply cons_hd_nonempty|].
    by rewrite Heq, cons_hd_app.
Qed.

Lemma addLine_not_EOF (kv : string) (m : Textproto.MIMEHeader) :
  snd (Textproto.addLine kv m) <> Some Textproto.EOF.
Proof.
  unfold Textproto.addLine.
  destruct (Textproto.cut ":"%char kv) as [[k v]|]; [|discriminate].
  destruct (Textproto.canonicalMIMEHeaderKey k) as [key ok].
  destruct ok; simpl; [|discriminate].
  destruct (Strings.forallb Textproto.validHeaderValueByte v); simpl; discriminate.
Qed.

(** Before a blank line the loop of [readMIMEHeader] ends without meeting
    the end of the text. *)
Lemma readLoop_terminated (ls : list string) : forall pending m,
  snd (Textproto.readLoop pending m (ls ++ [EmptyString])) <> Some Textproto.EOF.
Proof.
  induction ls as [|l ls IH]; intros pending m.
  - destruct pending as [buf|]; simpl; [|discriminate].
    pose proof (addLine_not_EOF buf m) as Hadd.
    destruct (Textproto.addLine buf m) as [m' [err|]]; [exact Hadd|discriminate].
  - change ((l :: ls) ++ [EmptyString]) with (l :: (ls ++ [EmptyString])).
    destruct pending as [buf|]; cbn [Textproto.readLoop].
    + destruct (Textproto.starts_blank l); [apply IH|].
      pose proof (addLine_not_EOF buf m) as Hadd.
      destruct (Textproto.addLine buf m) as [m' [err|]]; [exact Hadd|].
      destruct l as [|c l]; [discriminate|].
      destruct (Textproto.cut ":"%char (String c l)); [apply IH|discriminate].
    + destruct l as [|c l]; [discriminate|].
      destruct (Textproto.cut ":"%char (String c l)); [apply IH|discriminate].
Qed.

(** With the blank line appended, reading a header block never fails for
    want of text. *)
Lemma ReadMIMEHeader_terminated (s : string) :
  snd (Textproto.ReadMIMEHeader (s +:+ CRLF +:+ CRLF)) <> Some Textproto.EOF.
Proof.
  unfold Textproto.ReadMIMEHeader.
  destruct (lines_terminated (String.length s) s (le_n _)) as (ls & Hne & Heq).
  rewrite Heq. destruct ls as [|l ls]; [congruence|].
  change ((l :: ls) ++ [EmptyString]) with (l :: (ls ++ [EmptyString])).
  cbv beta iota. destruct (Textproto.starts_blank l).
  - cbn [snd]. destruct (80 <? String.length l); discriminate.
  - apply (readLoop_terminated (l :: ls)).
Qed.

(** * Further properties of [export.go] *)

(** ** The writes of [writeCurlCommand] on any writer *)

Lemma seq_ok_r {W' E'} (a : Io.Action W' E') (w : W') : Io.seq a Io.ok w = a w.
Proof. unfold Io.seq, Io.ok. by destruct (a w) as [w' [e|]]. Qed.

Lemma seq_assoc {W' E'} (a b c : Io.Action W' E') (w : W') :
  Io.seq (Io.seq a b) c w = Io.seq a (Io.seq b c) w.
Proof. unfold Io.seq. by destruct (a w) as [w' [e|]]. Qed.

Lemma seq_ext {W' E'} (a b b' : Io.Action W' E') (w : W') :
  (forall w', b w' = b' w') -> Io.seq a b w = Io.seq a b' w.
Proof. intros Hb. unfold Io.seq. destruct (a w) as [w' [e|]]; [reflexivity|apply Hb]. Qed.

Lemma seq_ext_l {W' E'} (a a' b : Io.Action W' E') (w : W') :
  (forall w', a w' = a' w') -> Io.seq a b w = Io.seq a' b w.
Proof. intros Ha. unfold Io.seq. by rewrite Ha. Qed.

Lemma for_each_cons {W' E' A} (x : A) (l : list A) (f : A -> Io.Action W' E') (w : W') :
  Io.for_each (x :: l) f w = Io.seq (f x) (Io.for_each l f) w.
Proof. reflexivity. Qed.

Lemma for_each_app {W' E' A} (l1 l2 : list A) (f : A -> Io.Action W' E') (w : W') :
  Io.for_each (l1 ++ l2) f w = Io.seq (Io.for_each l1 f) (Io.for_each l2 f) w.
Proof.
  revert w. induction l1 as [|x l1 IH]; intros w.
  - reflexivity.
  - cbn [app Io.for_each]. rewrite seq_assoc. apply seq_ext. exact IH.
Qed.

Lemma for_each_map {W' E' A B} (g : A -> B) (l : list A) (f : B -> Io.Action W' E') (w : W') :
  Io.for_each (List.map g l) f w = Io.for_each l (fun x => f (g x)) w.
Proof.
  revert w. induction l as [|x l IH]; intros w; [reflexivity|].
  cbn [List.map Io.for_each]. apply seq_ext. exact IH.
Qed.

Lemma for_each_ext {W' E' A} (l : list A) (f g : A -> Io.Action W' E') (w : W') :
  (forall x w', f x w' = g x w') -> Io.for_each l f w = Io.for_each l g w.
Proof.
  intros Hfg. revert w. induction l as [|x l IH]; intros w; [reflexivity|].
  cbn [Io.for_each]. unfold Io.seq. rewrite Hfg.
  destruct (g x w) as [w' [e|]]; [reflexivity|apply IH].
Qed.

(** The two nested loops over the header map write the header lines, each
    with its continuation, one after the other. *)
Lemma header_loop_writes {W' E'} `{!Io.Writer W' E'}
    (h : list (string * list string)) (w : W') :
  Io.for_each h (fun kvv =>
    Io.for_each (snd kvv) (fun v =>
      Io.WriteString ("-H '" +:+ escape (fst kvv) +:+ ": " +:+ escape v +:+
                      "' " +:+ continuation))) w =
  Io.for_each (List.map (fun l => l +:+ continuation) (linesOf h)) Io.Write w.
Proof.
  revert w. induction h as [|[k vv] h IH]; intros w; [reflexivity|].
  cbn [Io.for_each linesOf flat_map fst snd].
  rewrite List.map_app, for_each_app. fold (linesOf h).
  unfold Io.seq at 1 2.
  assert (Hvv : forall w',
    Io.for_each vv (fun v =>
      Io.WriteString ("-H '" +:+ escape k +:+ ": " +:+ escape v +:+
                      "' " +:+ continuation)) w' =
    Io.for_each (List.map (fun l => l +:+ continuation) (List.map (headerLine k) vv))
      Io.Write w').
  { intros w'. rewrite !for_each_map. apply for_each_ext. intros v w''.
    unfold Io.WriteString, headerLine. by rewrite !app_assoc_s. }
  rewrite Hvv.
  destruct (Io.for_each _ Io.Write w) as [w' [e|]]; [reflexivity|apply IH].
Qed.

(** On every writer [writeCurlCommand] is the sequence of the writes of
    [curlChunks]. *)
Lemma writeCurlCommand_chunks {W' E'} `{!Io.Writer W' E'} (request : Request) (w : W') :
  writeCurlCommand request w = Io.for_each (curlChunks request) Io.Write w.
Proof.
  unfold writeCurlCommand, curlChunks, requestLine.
  unfold Io.WriteString at 1 2. rewrite !app_assoc_s.
  rewrite for_each_cons. apply seq_ext. intros w1.
  rewrite for_each_cons. apply seq_ext. intros w2.
  rewrite for_each_app. rewrite (seq_ext _ _ _ _ (for_each_app _ _ _)).
  assert (Hh : forall w',
    (if Sql.Valid (RequestHeader request)
     then Io.for_each (range (curlHeader request)) (fun kvv =>
            Io.for_each (snd kvv) (fun v =>
              Io.WriteString ("-H '" +:+ escape (fst kvv) +:+ ": " +:+ escape v +:+
                              "' " +:+ continuation)))
     else Io.ok) w' =
    Io.for_each (List.map (fun l => l +:+ continuation) (headerLines request)) Io.Write w').
  { intros w'. unfold headerLines. destruct (Sql.Valid (RequestHeader request)).
    - apply header_loop_writes.
    - reflexivity. }
  rewrite (seq_ext_l _ _ _ _ Hh). apply seq_ext. intros w3.
  destruct (Sql.Valid (RequestBody request)).
  - cbn [Io.for_each]. unfold Io.seq, Io.ok, Io.WriteString, bodyLine.
    destruct (Io.Write _ w3) as [w4 [e|]]; [reflexivity|].
    by destruct (Io.Write (Strings.str1 Bytes.LF) w4) as [w5 [e|]].
  - cbn [Io.for_each]. unfold Io.seq, Io.ok.
    by destruct (Io.Write (Strings.str1 Bytes.LF) w3) as [w5 [e|]].
Qed.

(** A writer with room for [n] writes takes the first [n] of them. *)
Lemma limited_for_each (l : list string) : forall n a,
  Io.for_each l Io.Write (Io.mkLimited n a) =
  (Io.mkLimited (n - length l) (a +:+ Strings.concat (take n l)),
   if n <? length l then Some tt else None).
Proof.
  induction l as [|x l IH]; intros n a.
  - cbn [Io.for_each]. unfold Io.ok. rewrite take_nil. cbn [Strings.concat length].
    by rewrite app_nil_r, Nat.sub_0_r.
  - destruct n as [|n].
    + cbn [Io.for_each]. unfold Io.seq, Io.Write, Io.limited_writer.
      cbn [Io.quota take Strings.concat]. by rewrite app_nil_r.
    + cbn [Io.for_each]. unfold Io.seq at 1. unfold Io.Write at 1, Io.limited_writer at 1.
      cbn [Io.quota Io.accepted]. rewrite IH.
      cbn [take Strings.concat length Nat.sub]. by rewrite app_assoc_s.
Qed.

Lemma concat_take_prefix (l : list string) (n : nat) :
  Strings.HasPrefix (Strings.concat l) (Strings.concat (take n l)) = true.
Proof.
  rewrite <- (take_drop n l) at 1. rewrite concat_app. apply HasPrefix_app.
Qed.

Lemma buffer_writes (l : list string) (w : Io.Buffer) :
  Io.for_each (E := unit) l Io.Write w = (w +:+ Strings.concat l, None).
Proof.
  revert w. induction l as [|x l IH]; intros w.
  - cbn [Io.for_each Strings.concat]. unfold Io.ok. by rewrite app_nil_r.
  - cbn [Io.for_each Strings.concat]. unfold Io.seq, Io.Write at 1, Io.buffer_writer at 1.
    rewrite IH. by rewrite app_assoc_s.
Qed.

Lemma concat_curlChunks (request : Request) :
  Strings.concat (curlChunks request) = curlText request.
Proof. unfold curlText. by rewrite writeCurlCommand_chunks, buffer_writes. Qed.

(** X1. A write fault ends the rendering at once and nothing is taken back:
    a writer with room for [n] writes receives exactly the first [n] writes
    of the command, a prefix of the full text, and [writeCurlCommand]
    returns the error exactly when [n] is less than the number of writes,
    which is three plus one for each header line plus one for a body. *)
Theorem write_fault_stops_rendering (request : Request) (n : nat) :
  writeCurlCommand request (Io.mkLimited n EmptyString) =
    (Io.mkLimited (n - length (curlChunks request))
       (Strings.concat (take n (curlChunks request))),
     if n <? length (curlChunks request) then Some tt else None) /\
  Strings.HasPrefix (curlText request)
    (Strings.concat (take n (curlChunks request))) = true /\
  Strings.concat (curlChunks request) = curlText request /\
  length (curlChunks request) =
    3 + length (headerLines request) +
    (if Sql.Valid (RequestBody request) then 1 else 0).
Proof.
  split; [|split; [|split]].
  - by rewrite writeCurlCommand_chunks, limited_for_each.
  - rewrite <- concat_curlChunks. apply concat_take_prefix.
  - apply concat_curlChunks.
  - unfold curlChunks. cbn [length]. rewrite !length_app, length_map.
    destruct (Sql.Valid (RequestBody request)); simpl; lia.
Qed.

(** ** [escape] as a function on strings *)

Lemma escape_length (s : string) :
  String.length (escape s) = String.length s + 4 * countByte Bytes.squote s.
Proof.
  unfold escape. induction s as [|c s IH]; [reflexivity|].
  cbn [Strings.ReplaceAll countByte String.length].
  destruct (Ascii.eqb c Bytes.squote).
  - rewrite length_app_s, IH. cbn [quote_splice String.length]. lia.
  - cbn [String.length]. rewrite IH. lia.
Qed.

Lemma escape_no_quote (s : string) :
  countByte Bytes.squote s = 0 -> escape s = s.
Proof.
  unfold escape. induction s as [|c s IH]; [reflexivity|].
  cbn [Strings.ReplaceAll countByte].
  destruct (Ascii.eqb c Bytes.squote); [discriminate|].
  intros Hs. by rewrite IH.
Qed.

Lemma escape_inj (s1 s2 : string) : escape s1 = escape s2 -> s1 = s2.
Proof.
  intros Heq.
  pose proof (eval_quoted (fun _ => EmptyString) s1) as H1.
  pose proof (eval_quoted (fun _ => EmptyString) s2) as H2.
  rewrite Heq, H2 in H1. by inversion H1.
Qed.

(** X2. [escape] loses nothing and is not idempotent: it is injective; it
    makes the text four bytes longer for each single quote; it returns its
    argument exactly when that has no single quote, so escaping an escaped
    text that had a quote changes it again. *)
Theorem escape_lossless :
  (forall s1 s2, escape s1 = escape s2 -> s1 = s2) /\
  (forall s, String.length (escape s) = String.length s + 4 * countByte Bytes.squote s) /\
  (forall s, escape s = s <-> countByte Bytes.squote s = 0) /\
  (forall s, countByte Bytes.squote s <> 0 -> escape (escape s) <> escape s).
Proof.
  assert (Hfix : forall s, escape s = s <-> countByte Bytes.squote s = 0).
  { intros s. split; [|apply escape_no_quote].
    intros Heq. pose proof (escape_length s) as Hlen. rewrite Heq in Hlen. lia. }
  split; [exact escape_inj|]. split; [exact escape_length|]. split; [exact Hfix|].
  intros s Hq Heq. apply Hq, Hfix. by apply escape_inj.
Qed.

(** ** The order of the header lines of one name *)

Lemma filter_pairs_same (k : string) (vv : list string) :
  filter (fun kv : string * string => fst kv = k) (List.map (pair k) vv) = List.map (pair k) vv.
Proof.
  induction vv as [|v vv IH]; [reflexivity|].
  cbn [List.map]. rewrite filter_cons_True by reflexivity. by rewrite IH.
Qed.

Lemma filter_pairs_other (k k' : string) (vv : list string) :
  k' <> k ->
  filter (fun kv : string * string => fst kv = k) (List.map (pair k') vv) = [].
Proof.
  intros Hne. induction vv as [|v vv IH]; [reflexivity|].
  cbn [List.map]. by rewrite filter_cons_False.
Qed.

Lemma filter_headerPairs_notin (h : list (string * list string)) (k : string) :
  k ∉ h.*1 -> filter (fun kv : string * string => fst kv = k) (headerPairs h) = [].
Proof.
  induction h as [|[k' vv] h IH]; [reflexivity|].
  intros Hnotin. apply not_elem_of_cons in Hnotin as [Hne Hnotin].
  unfold headerPairs in *. cbn [flat_map fst snd].
  rewrite filter_app, (IH Hnotin).
  rewrite filter_pairs_other; [reflexivity|]. intros Heq. by apply Hne.
Qed.

Lemma filter_headerPairs_in (h : list (string * list string)) (k : string) (vv : list string) :
  NoDup h.*1 -> (k, vv) ∈ h ->
  filter (fun kv : string * string => fst kv = k) (headerPairs h) = List.map (pair k) vv.
Proof.
  induction h as [|[k' vv'] h IH]; intros Hnd Hin; [by apply elem_of_nil in Hin|].
  apply NoDup_cons in Hnd as [Hk' Hnd].
  unfold headerPairs in *. cbn [flat_map fst snd]. rewrite filter_app.
  apply elem_of_cons in Hin as [Heq|Hin].
  - inversion Heq; subst k' vv'. rewrite filter_pairs_same.
    fold (headerPairs h). rewrite filter_headerPairs_notin by exact Hk'.
    by rewrite List.app_nil_r.
  - assert (Hne : k' <> k).
    { intros ->. apply Hk'. apply list_elem_of_fmap. by exists (k, vv). }
    rewrite filter_pairs_other by exact Hne. by apply IH.
Qed.

(** The rendered pairs of one name, whatever the order of the map. *)
Lemma pairs_of_name (request : Request) (k : string) :
  filter (fun kv : string * string => fst kv = k)
    (headerPairs (range (curlHeader request))) =
  if decide (k = "Content-Length" \/ k = "X-Unix-Micro") then []
  else List.map (pair k)
         (default [] (fst (Textproto.ReadMIMEHeader
                             (Sql.String (RequestHeader request) +:+ CRLF +:+ CRLF)) !! k)).
Proof using range_perm.
  pose proof (range_perm (curlHeader request)) as Hr.
  assert (Hnd : NoDup (range (curlHeader request)).*1).
  { rewrite Hr. apply NoDup_fst_map_to_list. }
  pose proof (curlHeader_lookup request k) as Hlook.
  destruct (curlHeader request !! k) as [vv|] eqn:Hk.
  - assert (Hin : (k, vv) ∈ range (curlHeader request)).
    { rewrite Hr. by apply elem_of_map_to_list. }
    rewrite (filter_headerPairs_in _ _ _ Hnd Hin).
    destruct (decide (k = "Content-Length" \/ k = "X-Unix-Micro")); [discriminate|].
    by rewrite <- Hlook.
  - rewrite filter_headerPairs_notin.
    + destruct (decide (k = "Content-Length" \/ k = "X-Unix-Micro")); [reflexivity|].
      by rewrite <- Hlook.
    + intros Hin. apply list_elem_of_fmap in Hin as [[k' vv] [Hfst Hin]].
      simpl in Hfst. subst k'. rewrite Hr in Hin.
      apply elem_of_map_to_list in Hin. congruence.
Qed.

(** ** Header lines are single lines *)

Lemma forallb_impl_s (p q : ascii -> bool) (s : string) :
  (forall c, p c = true -> q c = true) ->
  Strings.forallb p s = true -> Strings.forallb q s = true.
Proof.
  intros Hpq. induction s as [|c s IH]; [reflexivity|].
  cbn [Strings.forallb]. rewrite !andb_true_iff. intros [Hc Hs]. auto.
Qed.

Lemma field_byte_noLF (c : ascii) :
  Textproto.validHeaderFieldByte c || Ascii.eqb c Bytes.SP = true ->
  negb (Ascii.eqb c Bytes.LF) = true.
Proof. destruct c as [[] [] [] [] [] [] [] []]; vm_compute; auto. Qed.

Lemma value_byte_noLF (c : ascii) :
  Textproto.validHeaderValueByte c = true -> negb (Ascii.eqb c Bytes.LF) = true.
Proof. destruct c as [[] [] [] [] [] [] [] []]; vm_compute; auto. Qed.

Lemma case_byte_noLF (c : ascii) :
  negb (Ascii.eqb c Bytes.LF) = true ->
  negb (Ascii.eqb (Bytes.to_upper c) Bytes.LF) = true /\
  negb (Ascii.eqb (Bytes.to_lower c) Bytes.LF) = true.
Proof. destruct c as [[] [] [] [] [] [] [] []]; vm_compute; auto. Qed.

Lemma canonicalize_noLF (a : string) : forall upper,
  noLF a = true -> noLF (Textproto.canonicalize upper a) = true.
Proof.
  unfold noLF. induction a as [|c a IH]; intros upper; [reflexivity|].
  cbn [Strings.forallb Textproto.canonicalize]. rewrite !andb_true_iff.
  intros [Hc Ha]. destruct (case_byte_noLF c Hc) as [Hup Hlow].
  split; [|by apply IH].
  destruct (upper && Bytes.is_lower c); [exact Hup|].
  destruct (negb upper && Bytes.is_upper c); [exact Hlow|exact Hc].
Qed.

Lemma canonicalMIMEHeaderKey_noLF (a : string) :
  snd (Textproto.canonicalMIMEHeaderKey a) = true ->
  noLF (fst (Textproto.canonicalMIMEHeaderKey a)) = true.
Proof.
  unfold Textproto.canonicalMIMEHeaderKey. destruct a as [|c a]; [discriminate|].
  destruct (Strings.forallb (fun c => Textproto.validHeaderFieldByte c || Ascii.eqb c Bytes.SP)
              (String c a)) eqn:Hall; cbn [negb]; [|discriminate].
  assert (Hno : noLF (String c a) = true)
    by (exact (forallb_impl_s _ _ _ field_byte_noLF Hall)).
  destruct (Strings.forallb Textproto.validHeaderFieldByte (String c a)); cbn [negb fst snd];
    intros _; [by apply canonicalize_noLF | exact Hno].
Qed.

Lemma trim_left_forallb (p : ascii -> bool) (s : string) :
  Strings.forallb p s = true -> Strings.forallb p (Textproto.trim_left s) = true.
Proof.
  induction s as [|c s IH]; [reflexivity|].
  intros Hs. cbn [Textproto.trim_left]. destruct (Textproto.is_blank c); [|exact Hs].
  cbn [Strings.forallb] in Hs. apply andb_true_iff in Hs as [_ Hs]. by apply IH.
Qed.

Lemma addLine_linesFree (kv : string) (m : Textproto.MIMEHeader) :
  linesFree m -> linesFree (fst (Textproto.addLine kv m)).
Proof.
  intros Hm. unfold Textproto.addLine.
  destruct (Textproto.cut ":"%char kv) as [[k v]|]; [|exact Hm].
  pose proof (canonicalMIMEHeaderKey_noLF k) as Hkey.
  destruct (Textproto.canonicalMIMEHeaderKey k) as [key ok]. cbn [fst snd] in Hkey.
  destruct ok; cbn [negb]; [|exact Hm].
  destruct (Strings.forallb Textproto.validHeaderValueByte v) eqn:Hv; cbn [negb fst];
    [|exact Hm].
  apply map_Forall_insert_2; [|exact Hm].
  split; [by apply Hkey|].
  apply Forall_app. split.
  - destruct (m !! key) as [vv|] eqn:Hlook; [exact (proj2 (Hm _ _ Hlook))|constructor].
  - constructor; [|constructor]. apply trim_left_forallb.
    exact (forallb_impl_s _ _ _ value_byte_noLF Hv).
Qed.

Lemma readLoop_linesFree (ls : list string) : forall pending m,
  linesFree m -> linesFree (fst (Textproto.readLoop pending m ls)).
Proof.
  induction ls as [|l ls IH]; intros pending m Hm.
  - destruct pending as [buf|]; cbn [Textproto.readLoop]; [|exact Hm].
    pose proof (addLine_linesFree buf m Hm) as Hadd.
    by destruct (Textproto.addLine buf m) as [m' [err|]].
  - destruct pending as [buf|]; cbn [Textproto.readLoop].
    + destruct (Textproto.starts_blank l); [by apply IH|].
      pose proof (addLine_linesFree buf m Hm) as Hadd.
      destruct (Textproto.addLine buf m) as [m' [err|]]; [exact Hadd|].
      destruct l as [|c l]; [exact Hadd|].
      destruct (Textproto.cut ":"%char (String c l)); [by apply IH|exact Hadd].
    + destruct l as [|c l]; [exact Hm|].
      destruct (Textproto.cut ":"%char (String c l)); [by apply IH|exact Hm].
Qed.

Lemma ReadMIMEHeader_linesFree (s : string) :
  linesFree (fst (Textproto.ReadMIMEHeader s)).
Proof.
  unfold Textproto.ReadMIMEHeader.
  destruct (Textproto.lines s) as [|l ls] eqn:Hl.
  - apply readLoop_linesFree, map_Forall_empty.
  - destruct (Textproto.starts_blank l); [apply map_Forall_empty|].
    apply readLoop_linesFree, map_Forall_empty.
Qed.

Lemma escape_noLF (s : string) : noLF s = true -> noLF (escape s) = true.
Proof.
  unfold noLF, escape. induction s as [|c s IH]; [reflexivity|].
  cbn [Strings.forallb Strings.ReplaceAll]. rewrite andb_true_iff. intros [Hc Hs].
  destruct (Ascii.eqb c Bytes.squote).
  - rewrite forallb_app_s, (IH Hs). reflexivity.
  - cbn [Strings.forallb]. by rewrite Hc, (IH Hs).
Qed.

Lemma headerLine_noLF (k v : string) :
  noLF k = true -> noLF v = true -> noLF (headerLine k v) = true.
Proof.
  intros Hk Hv. unfold headerLine, noLF.
  rewrite !forallb_app_s. fold (noLF (escape k)) (noLF (escape v)).
  by rewrite (escape_noLF k Hk), (escape_noLF v Hv).
Qed.

(** ** File names as path components, and their collisions *)

Lemma genFilename_chatcmpl (request : Request) (cid : string) :
  Ident request = "chatcmpl=" +:+ cid -> genFilename request = cid +:+ ".json".
Proof.
  intros Hid. unfold genFilename. cbv zeta.
  by rewrite Hid, HasPrefix_app, TrimPrefix_app.
Qed.

Lemma genFilename_requestid (request : Request) (rid : string) :
  Ident request = "requestid=" +:+ rid ->
  genFilename request = "requestid-" +:+ rid +:+ ".json".
Proof.
  intros Hid. unfold genFilename. cbv zeta.
  rewrite Hid, TrimPrefix_app, HasPrefix_app.
  change (Strings.HasPrefix ("requestid=" +:+ rid) "chatcmpl=") with false.
  cbv iota. rewrite ?app_assoc_s. reflexivity.
Qed.

Lemma genFilename_fallback (request : Request) :
  Strings.HasPrefix (Ident request) "chatcmpl=" = false ->
  Strings.HasPrefix (Ident request) "requestid=" = false ->
  genFilename request =
    (Strings.ToLower unicodeLower (RequestMethod request) +:+ "-" +:+
     Strings.map slashToDash (Strings.TrimPrefix (RequestPath request) "/v1/") +:+
     (if Sql.Valid (MoonshotUID request)
      then "-" +:+ Sql.String (MoonshotUID request) else EmptyString) +:+ "-") +:+
    Time.Format (CreatedAt request) Time.layout_20060102150405 +:+ ".json".
Proof.
  intros H1 H2. unfold genFilename. cbv zeta. rewrite H1, H2.
  change "-" with (Strings.str1 "-"%char) at 2.
  rewrite ReplaceAll_byte. rewrite ?app_assoc_s. reflexivity.
Qed.

Lemma app_inv_length (a1 a2 b1 b2 : string) :
  a1 +:+ b1 = a2 +:+ b2 -> String.length a1 = String.length a2 -> a1 = a2 /\ b1 = b2.
Proof.
  revert a2. induction a1 as [|c a1 IH]; intros [|c' a2] Heq Hlen;
    try (simpl in Hlen; discriminate).
  - by split.
  - rewrite !app_cons in Heq. injection Heq as -> Heq.
    simpl in Hlen. destruct (IH a2 Heq ltac:(lia)) as [-> ->]. by split.
Qed.

Lemma app_inv_tail_length (a1 a2 b1 b2 : string) :
  a1 +:+ b1 = a2 +:+ b2 -> String.length b1 = String.length b2 -> a1 = a2 /\ b1 = b2.
Proof.
  intros Heq Hlen. apply app_inv_length; [exact Heq|].
  pose proof (f_equal String.length Heq) as Hl. rewrite !length_app_s in Hl. lia.
Qed.

Lemma digit_noSlash (c : ascii) :
  Bytes.is_digit c || Ascii.eqb c "-"%char = true -> negb (Ascii.eqb c "/"%char) = true.
Proof. destruct c as [[] [] [] [] [] [] [] []]; vm_compute; auto. Qed.

Lemma uint_digits (d : Decimal.uint) :
  Strings.forallb Bytes.is_digit (DecimalString.NilEmpty.string_of_uint d) = true.
Proof. induction d; simpl; auto. Qed.

Lemma decimal_digits (n : N) : Strings.forallb Bytes.is_digit (Time.decimal n) = true.
Proof.
  unfold Time.decimal, DecimalString.NilZero.string_of_uint.
  destruct (N.to_uint n) eqn:Hd; try (rewrite <- Hd; apply uint_digits). reflexivity.
Qed.

Lemma zeros_digits (n : nat) : Strings.forallb Bytes.is_digit (Time.zeros n) = true.
Proof. induction n as [|n IH]; [reflexivity|]. simpl. exact IH. Qed.

Lemma appendInt_noSlash (x : Z) (width : nat) : noSlash (Time.appendInt x width) = true.
Proof.
  unfold noSlash. apply (forallb_impl_s _ _ _ digit_noSlash).
  unfold Time.appendInt. rewrite !forallb_app_s.
  assert (Hd : forall s, Strings.forallb Bytes.is_digit s = true ->
            Strings.forallb (fun c => Bytes.is_digit c || Ascii.eqb c "-"%char) s = true).
  { intros s. apply forallb_impl_s. intros c ->. reflexivity. }
  rewrite (Hd _ (zeros_digits _)), (Hd _ (decimal_digits _)).
  by destruct (x <? 0)%Z.
Qed.

Lemma Format_noSlash (t : Time.Time) :
  noSlash (Time.Format t Time.layout_20060102150405) = true.
Proof.
  rewrite Format_stamp. unfold noSlash. rewrite !forallb_app_s.
  fold (noSlash (Time.appendInt (Time.Year t) 4)).
  fold (noSlash (Time.appendInt (Z.of_nat (Time.Month t)) 2)).
  fold (noSlash (Time.appendInt (Z.of_nat (Time.Day t)) 2)).
  fold (noSlash (Time.appendInt (Z.of_nat (Time.Hour t)) 2)).
  fold (noSlash (Time.appendInt (Z.of_nat (Time.Minute t)) 2)).
  fold (noSlash (Time.appendInt (Z.of_nat (Time.Second t)) 2)).
  by rewrite !appendInt_noSlash.
Qed.

Lemma slashToDash_noSlash (s : string) : noSlash (Strings.map slashToDash s) = true.
Proof.
  unfold noSlash. induction s as [|c s IH]; [reflexivity|].
  cbn [Strings.map Strings.forallb]. rewrite IH, andb_true_r.
  unfold slashToDash. destruct (Ascii.eqb c "/"%char) eqn:Hc; [reflexivity|by rewrite Hc].
Qed.

(** X5. A name that is synthesized from method, path, UID and time is one
    path component: it has no slash, provided the lower-cased method and
    the UID have none; the slashes of the path are all replaced and the
    time stamp has none. *)
Theorem fallback_filename_has_no_slash (request : Request) :
  Strings.HasPrefix (Ident request) "chatcmpl=" = false ->
  Strings.HasPrefix (Ident request) "requestid=" = false ->
  noSlash (Strings.ToLower unicodeLower (RequestMethod request)) = true ->
  (Sql.Valid (MoonshotUID request) = true ->
   noSlash (Sql.String (MoonshotUID request)) = true) ->
  noSlash (genFilename request) = true.
Proof.
  intros H1 H2 Hm Hu. rewrite (genFilename_fallback request H1 H2).
  unfold noSlash in *. rewrite !forallb_app_s.
  fold (noSlash (Strings.map slashToDash (Strings.TrimPrefix (RequestPath request) "/v1/"))).
  fold (noSlash (Time.Format (CreatedAt request) Time.layout_20060102150405)).
  rewrite Hm, slashToDash_noSlash, Format_noSlash.
  destruct (Sql.Valid (MoonshotUID request)).
  - rewrite forallb_app_s, (Hu eq_refl). reflexivity.
  - reflexivity.
Qed.

Lemma appendInt_inj (width : nat) (bound : Z) :
  List.forallb (fun n =>
    match digitsValue (Time.appendInt (Z.of_nat n) width) with
    | Some v => N.eqb v (N.of_nat n)
    | None => false
    end) (seq 0 (Z.to_nat bound)) = true ->
  forall x y : Z, (0 <= x < bound)%Z -> (0 <= y < bound)%Z ->
  Time.appendInt x width = Time.appendInt y width -> x = y.
Proof.
  intros Hall. rewrite List.forallb_forall in Hall.
  assert (Hval : forall x : Z, (0 <= x < bound)%Z ->
            digitsValue (Time.appendInt x width) = Some (Z.to_N x)).
  { intros x Hx. specialize (Hall (Z.to_nat x)).
    rewrite Z2Nat.id in Hall by lia.
    assert (Hin : In (Z.to_nat x) (seq 0 (Z.to_nat bound))) by (apply in_seq; lia).
    specialize (Hall Hin).
    destruct (digitsValue (Time.appendInt x width)) as [v|]; [|discriminate].
    apply N.eqb_eq in Hall. f_equal. lia. }
  intros x y Hx Hy Heq.
  pose proof (Hval x Hx) as Vx. rewrite Heq, (Hval y Hy) in Vx.
  injection Vx as Vx. lia.
Qed.

Lemma appendInt_year_inj (x y : Z) :
  (0 <= x <= 9999)%Z -> (0 <= y <= 9999)%Z ->
  Time.appendInt x 4 = Time.appendInt y 4 -> x = y.
Proof.
  intros Hx Hy. apply (appendInt_inj 4 10000); [vm_compute; reflexivity|lia|lia].
Qed.

Lemma appendInt_field_inj (n m : nat) :
  n < 100 -> m < 100 ->
  Time.appendInt (Z.of_nat n) 2 = Time.appendInt (Z.of_nat m) 2 -> n = m.
Proof.
  intros Hn Hm Heq.
  apply Nat2Z.inj. revert Heq. apply (appendInt_inj 2 100); [vm_compute; reflexivity|lia|lia].
Qed.

Lemma fixedWidth_length (n : nat) (s : string) :
  fixedWidth n s = true -> String.length s = n.
Proof. unfold fixedWidth. rewrite andb_true_iff, Nat.eqb_eq. by intros [Hlen _]. Qed.

(** The stamp determines the time. *)
Lemma Format_inj (t1 t2 : Time.Time) :
  stampable t1 -> stampable t2 ->
  Time.Format t1 Time.layout_20060102150405 = Time.Format t2 Time.layout_20060102150405 ->
  t1 = t2.
Proof.
  intros (Hy1 & Hmo1 & Hd1 & Hh1 & Hmi1 & Hs1) (Hy2 & Hmo2 & Hd2 & Hh2 & Hmi2 & Hs2).
  rewrite !Format_stamp. intros Heq.
  pose proof (fixedWidth_length _ _ (appendInt_year _ Hy1)) as Ly1.
  pose proof (fixedWidth_length _ _ (appendInt_year _ Hy2)) as Ly2.
  pose proof (fixedWidth_length _ _ (appendInt_field _ Hmo1)) as Lmo1.
  pose proof (fixedWidth_length _ _ (appendInt_field _ Hmo2)) as Lmo2.
  pose proof (fixedWidth_length _ _ (appendInt_field _ Hd1)) as Ld1.
  pose proof (fixedWidth_length _ _ (appendInt_field _ Hd2)) as Ld2.
  pose proof (fixedWidth_length _ _ (appendInt_field _ Hh1)) as Lh1.
  pose proof (fixedWidth_length _ _ (appendInt_field _ Hh2)) as Lh2.
  pose proof (fixedWidth_length _ _ (appendInt_field _ Hmi1)) as Lmi1.
  pose proof (fixedWidth_length _ _ (appendInt_field _ Hmi2)) as Lmi2.
  apply app_inv_length in Heq as [Ey Heq]; [|congruence].
  apply app_inv_length in Heq as [Emo Heq]; [|congruence].
  apply app_inv_length in Heq as [Ed Heq]; [|congruence].
  apply app_inv_length in Heq as [Eh Heq]; [|congruence].
  apply app_inv_length in Heq as [Emi Es]; [|congruence].
  apply appendInt_year_inj in Ey; [|assumption..].
  apply appendInt_field_inj in Emo; [|assumption..].
  apply appendInt_field_inj in Ed; [|assumption..].
  apply appendInt_field_inj in Eh; [|assumption..].
  apply appendInt_field_inj in Emi; [|assumption..].
  apply appendInt_field_inj in Es; [|assumption..].
  destruct t1, t2; simpl in *; congruence.
Qed.

(** X7. Names made from symbolic identifiers are as distinct as the
    identifiers: two records with completion ids, or two records with
    request ids, that get the same file name have the same id. *)
Theorem symbolic_filename_fixes_id (r1 r2 : Request) (id1 id2 : string) :
  (Ident r1 = "chatcmpl=" +:+ id1 -> Ident r2 = "chatcmpl=" +:+ id2 ->
   genFilename r1 = genFilename r2 -> id1 = id2) /\
  (Ident r1 = "requestid=" +:+ id1 -> Ident r2 = "requestid=" +:+ id2 ->
   genFilename r1 = genFilename r2 -> id1 = id2).
Proof.
  split; intros H1 H2.
  - rewrite (genFilename_chatcmpl r1 id1 H1), (genFilename_chatcmpl r2 id2 H2).
    intros Heq. by apply app_inv_tail_length in Heq as [-> _].
  - rewrite (genFilename_requestid r1 id1 H1), (genFilename_requestid r2 id2 H2).
    intros Heq. apply app_inv_length in Heq as [_ Heq]; [|reflexivity].
    by apply app_inv_tail_length in Heq as [-> _].
Qed.

(** ** The tags of a command line *)

Lemma tags_fold (args : list Arg) : forall fl,
  tags (fold_left setFlag args fl) = tags fl ++ tagValues args.
Proof.
  induction args as [|a args IH]; intros fl.
  - simpl. by rewrite List.app_nil_r.
  - cbn [fold_left]. rewrite IH. unfold tagValues. cbn [flat_map].
    destruct fl, a; cbn [setFlag tags]; rewrite <- ?List.app_assoc; reflexivity.
Qed.

(** X10. On a chat record the tags after the annotation are the values of
    the [--tag] flags in the order of the command line, whatever tags the
    record had; a command line without [--tag] leaves the tags as they
    are. *)
Theorem tags_follow_command_line (args : list Arg) (request : Request) :
  IsChat request = true ->
  Tags (annotate (parseFlags args) request) =
    match tagValues args with
    | [] => Tags request
    | _ :: _ => tagValues args
    end.
Proof.
  intros Hchat. unfold annotate. rewrite Hchat.
  unfold parseFlags. set (fl := fold_left setFlag args defaultFlags).
  assert (Ht : tags fl = tagValues args) by (unfold fl; by rewrite tags_fold).
  rewrite Ht.
  destruct (tagValues args) as [|t ts]; destruct (goodCase fl), (badCase fl); reflexivity.
Qed.

(** ** What follows a blank line of the header block *)

Lemma lines_nonempty (c : ascii) (s : string) : Textproto.lines (String c s) <> [].
Proof.
  cbn [Textproto.lines]. destruct (Ascii.eqb c Bytes.LF); [discriminate|].
  destruct s as [|c' s]; [discriminate|].
  destruct (Ascii.eqb c Bytes.CR && Ascii.eqb c' Bytes.LF); [discriminate|].
  apply cons_hd_nonempty.
Qed.

Lemma cons_hd_app_r (c : ascii) (ls ls' : list string) :
  ls <> [] -> Textproto.cons_hd c (ls ++ ls') = Textproto.cons_hd c ls ++ ls'.
Proof. destruct ls as [|x ls]; [congruence|reflexivity]. Qed.

(** The lines before a line feed do not depend on what follows it. *)
Lemma lines_LF (n : nat) : forall a rest, String.length a <= n ->
  Textproto.lines (a +:+ String Bytes.LF rest) =
  Textproto.lines (a +:+ Strings.str1 Bytes.LF) ++ Textproto.lines rest.
Proof.
  induction n as [|n IH]; intros a rest Hlen.
  - destruct a; [reflexivity|simpl in Hlen; lia].
  - destruct a as [|c a]; [reflexivity|].
    simpl in Hlen. rewrite !app_cons. cbn [Textproto.lines].
    destruct (Ascii.eqb c Bytes.LF).
    { by rewrite (IH a rest) by lia. }
    destruct a as [|c' a].
    { change (EmptyString +:+ String Bytes.LF rest) with (String Bytes.LF rest).
      change (EmptyString +:+ Strings.str1 Bytes.LF) with (String Bytes.LF EmptyString).
      cbv beta iota.
      destruct (Ascii.eqb c Bytes.CR && Ascii.eqb Bytes.LF Bytes.LF); reflexivity. }
    rewrite !app_cons. cbv beta iota.
    destruct (Ascii.eqb c Bytes.CR && Ascii.eqb c' Bytes.LF).
    { simpl in Hlen. by rewrite (IH a rest) by lia. }
    rewrite <- !app_cons.
    rewrite (IH (String c' a) rest) by (simpl in *; lia).
    apply cons_hd_app_r. rewrite app_cons. apply lines_nonempty.
Qed.

Lemma lines_CRLF (a rest : string) :
  Textproto.lines (a +:+ CRLF +:+ rest) =
  Textproto.lines (a +:+ CRLF) ++ Textproto.lines rest.
Proof.
  change (a +:+ CRLF +:+ rest)
    with (a +:+ Strings.str1 Bytes.CR +:+ String Bytes.LF rest).
  change (a +:+ CRLF)
    with (a +:+ Strings.str1 Bytes.CR +:+ Strings.str1 Bytes.LF).
  rewrite <- !app_assoc_s.
  apply (lines_LF (String.length (a +:+ Strings.str1 Bytes.CR))). lia.
Qed.

(** The loop of [readMIMEHeader] reads nothing after a blank line. *)
Lemma readLoop_blank (ls rest : list string) : forall pending m,
  Textproto.readLoop pending m (ls ++ EmptyString :: rest) =
  Textproto.readLoop pending m (ls ++ [EmptyString]).
Proof.
  induction ls as [|l ls IH]; intros pending m.
  - destruct pending as [buf|]; reflexivity.
  - change ((l :: ls) ++ EmptyString :: rest) with (l :: (ls ++ EmptyString :: rest)).
    change ((l :: ls) ++ [EmptyString]) with (l :: (ls ++ [EmptyString])).
    destruct pending as [buf|]; cbn [Textproto.readLoop].
    + destruct (Textproto.starts_blank l); [apply IH|].
      destruct (Textproto.addLine buf m) as [m' [err|]]; [reflexivity|].
      destruct l as [|c l]; [reflexivity|].
      destruct (Textproto.cut ":"%char (String c l)); [apply IH|reflexivity].
    + destruct l as [|c l]; [reflexivity|].
      destruct (Textproto.cut ":"%char (String c l)); [apply IH|reflexivity].
Qed.

Lemma ReadMIMEHeader_blank (a b : string) :
  Textproto.ReadMIMEHeader (a +:+ CRLF +:+ CRLF +:+ b) =
  Textproto.ReadMIMEHeader (a +:+ CRLF +:+ CRLF).
Proof.
  unfold Textproto.ReadMIMEHeader.
  rewrite (lines_CRLF a (CRLF +:+ b)), (lines_CRLF a CRLF).
  change (Textproto.lines (CRLF +:+ b)) with (EmptyString :: Textproto.lines b).
  change (Textproto.lines CRLF) with [EmptyString].
  destruct (Textproto.lines (a +:+ CRLF)) as [|l ls] eqn:Hl.
  { exfalso. destruct a; discriminate Hl || by apply lines_nonempty in Hl. }
  change ((l :: ls) ++ EmptyString :: Textproto.lines b)
    with (l :: (ls ++ EmptyString :: Textproto.lines b)).
  change ((l :: ls) ++ [EmptyString]) with (l :: (ls ++ [EmptyString])).
  cbv beta iota. destruct (Textproto.starts_blank l); [reflexivity|].
  apply (readLoop_blank (l :: ls)).
Qed.

(** ** A well-formed header block comes back *)

Lemma lines_line (l : string) :
  noLF l = true -> Textproto.lines (l +:+ CRLF) = [l].
Proof.
  unfold noLF. induction l as [|c l IH]; [reflexivity|].
  cbn [Strings.forallb]. rewrite andb_true_iff, negb_true_iff. intros [Hc Hl].
  rewrite app_cons. cbn [Textproto.lines]. rewrite Hc.
  destruct l as [|c' l].
  - change (EmptyString +:+ CRLF) with (String Bytes.CR (String Bytes.LF EmptyString)).
    cbv beta iota. by rewrite andb_false_r.
  - pose proof Hl as Hl'. cbn [Strings.forallb] in Hl'.
    apply andb_true_iff in Hl' as [Hc' _]. apply negb_true_iff in Hc'.
    rewrite app_cons. cbv beta iota. rewrite Hc', andb_false_r.
    rewrite <- app_cons. by rewrite (IH Hl).
Qed.

Lemma field_byte_plain (c : ascii) :
  Textproto.validHeaderFieldByte c = true ->
  Textproto.is_blank c = false /\ Ascii.eqb c ":"%char = false /\
  Textproto.validHeaderValueByte c = true.
Proof. destruct c as [[] [] [] [] [] [] [] []]; vm_compute; auto. Qed.

Lemma trim_right_cons (c : ascii) (s : string) :
  Textproto.is_blank c = false ->
  Textproto.trim_right (String c s) = String c (Textproto.trim_right s).
Proof.
  intros Hc. cbn [Textproto.trim_right]. rewrite Hc.
  by destruct (Textproto.trim_right s).
Qed.

Lemma trim_right_app (k s : string) :
  Strings.forallb Textproto.validHeaderFieldByte k = true ->
  Textproto.trim_right (k +:+ s) = k +:+ Textproto.trim_right s.
Proof.
  induction k as [|c k IH]; [reflexivity|].
  cbn [Strings.forallb]. rewrite andb_true_iff. intros [Hc Hk].
  rewrite !app_cons, trim_right_cons by apply (field_byte_plain c Hc).
  by rewrite (IH Hk).
Qed.

Lemma trim_right_forallb (p : ascii -> bool) (s : string) :
  Strings.forallb p s = true -> Strings.forallb p (Textproto.trim_right s) = true.
Proof.
  induction s as [|c s IH]; [reflexivity|].
  cbn [Strings.forallb Textproto.trim_right]. rewrite andb_true_iff. intros [Hc Hs].
  specialize (IH Hs). destruct (Textproto.trim_right s) as [|c' t].
  - destruct (Textproto.is_blank c); [reflexivity|]. cbn. by rewrite Hc.
  - cbn [Strings.forallb] in *. by rewrite Hc, IH.
Qed.

(** The two halves of [trim] can be taken in either order. *)
Lemma trim_comm (s : string) :
  Textproto.trim_left (Textproto.trim_right s) =
  Textproto.trim_right (Textproto.trim_left s).
Proof.
  induction s as [|c s IH]; [reflexivity|].
  cbn [Textproto.trim_left]. destruct (Textproto.is_blank c) eqn:Hc.
  - rewrite <- IH. cbn [Textproto.trim_right]. rewrite Hc.
    destruct (Textproto.trim_right s) as [|c' t]; [reflexivity|].
    cbn [Textproto.trim_left]. by rewrite Hc.
  - rewrite (trim_right_cons c s Hc). cbn [Textproto.trim_left]. by rewrite Hc.
Qed.

Lemma cut_colon (k w : string) :
  Strings.forallb Textproto.validHeaderFieldByte k = true ->
  Textproto.cut ":"%char (k +:+ String ":"%char w) = Some (k, w).
Proof.
  induction k as [|c k IH]; [reflexivity|].
  cbn [Strings.forallb]. rewrite andb_true_iff. intros [Hc Hk].
  rewrite app_cons. cbn [Textproto.cut].
  destruct (field_byte_plain c Hc) as (_ & -> & _). by rewrite (IH Hk).
Qed.

(** The text of one header line. *)
Lemma fieldName_inv (k : string) :
  fieldName k = true ->
  Strings.forallb Textproto.validHeaderFieldByte k = true /\
  exists c k', k = String c k' /\ Textproto.is_blank c = false.
Proof.
  unfold fieldName. rewrite andb_true_iff. intros [Hne Hall]. split; [exact Hall|].
  destruct k as [|c k']; [discriminate|]. exists c, k'. split; [reflexivity|].
  cbn [Strings.forallb] in Hall. apply andb_true_iff in Hall as [Hc _].
  apply (field_byte_plain c Hc).
Qed.

Lemma trim_line (k v : string) :
  fieldName k = true ->
  Textproto.trim (k +:+ ": " +:+ v) =
  k +:+ String ":"%char (Textproto.trim_right (String Bytes.SP v)).
Proof.
  intros Hk. destruct (fieldName_inv k Hk) as (Hall & c & k' & -> & Hc).
  unfold Textproto.trim. rewrite app_cons. cbn [Textproto.trim_left]. rewrite Hc.
  rewrite <- app_cons, (trim_right_app _ _ Hall).
  change (": " +:+ v) with (String ":"%char (String Bytes.SP v)).
  by rewrite (trim_right_cons ":"%char).
Qed.

Lemma canonical_fieldName (k : string) :
  fieldName k = true ->
  Textproto.canonicalMIMEHeaderKey k = (Textproto.CanonicalMIMEHeaderKey k, true).
Proof.
  intros Hk. destruct (fieldName_inv k Hk) as (Hall & c & k' & -> & Hc).
  unfold Textproto.CanonicalMIMEHeaderKey, Textproto.canonicalMIMEHeaderKey.
  rewrite Hall.
  assert (Hsp : Strings.forallb
                  (fun c => Textproto.validHeaderFieldByte c || Ascii.eqb c Bytes.SP)
                  (String c k') = true).
  { apply (forallb_impl_s Textproto.validHeaderFieldByte); [|exact Hall].
    intros x Hx. by rewrite Hx. }
  by rewrite Hsp.
Qed.

Lemma addLine_line (k v : string) (m : Textproto.MIMEHeader) :
  fieldName k = true -> fieldValue v = true ->
  Textproto.addLine (Textproto.trim (k +:+ ": " +:+ v)) m = (addPair m (k, v), None).
Proof.
  intros Hk Hv. unfold fieldValue in Hv. destruct (fieldName_inv k Hk) as (Hall & _).
  rewrite (trim_line k v Hk). unfold Textproto.addLine.
  rewrite (cut_colon _ _ Hall), (canonical_fieldName k Hk). cbn [negb].
  assert (Hw : Strings.forallb Textproto.validHeaderValueByte
                 (Textproto.trim_right (String Bytes.SP v)) = true).
  { apply trim_right_forallb. cbn [Strings.forallb]. by rewrite Hv. }
  rewrite Hw. cbn [negb]. rewrite trim_comm.
  reflexivity.
Qed.

Lemma line_shape (k v : string) :
  fieldName k = true ->
  Textproto.starts_blank (k +:+ ": " +:+ v) = false /\
  k +:+ ": " +:+ v <> EmptyString /\
  Textproto.cut ":"%char (k +:+ ": " +:+ v) = Some (k, String Bytes.SP v).
Proof.
  intros Hk. destruct (fieldName_inv k Hk) as (Hall & c & k' & Heq & Hc).
  split; [subst k; by rewrite app_cons|].
  split; [by subst k|]. by apply cut_colon.
Qed.

(** One turn of the loop of [readMIMEHeader] on a line that starts a new
    header. *)
Lemma readLoop_next (buf l : string) (ls : list string) (m m' : Textproto.MIMEHeader)
    (kv : string * string) :
  Textproto.starts_blank l = false -> l <> EmptyString ->
  Textproto.cut ":"%char l = Some kv ->
  Textproto.addLine buf m = (m', None) ->
  Textproto.readLoop (Some buf) m (l :: ls) =
  Textproto.readLoop (Some (Textproto.trim l)) m' ls.
Proof.
  intros Hsb Hne Hcut Hadd. cbn [Textproto.readLoop]. rewrite Hsb, Hadd.
  destruct l as [|c l]; [congruence|]. by rewrite Hcut.
Qed.

Lemma readLoop_first (l : string) (ls : list string) (m : Textproto.MIMEHeader)
    (kv : string * string) :
  l <> EmptyString -> Textproto.cut ":"%char l = Some kv ->
  Textproto.readLoop None m (l :: ls) =
  Textproto.readLoop (Some (Textproto.trim l)) m ls.
Proof.
  intros Hne Hcut. cbn [Textproto.readLoop].
  destruct l as [|c l]; [congruence|]. by rewrite Hcut.
Qed.

Lemma readLoop_block (hs : list (string * string)) (rest : list string) :
  forall kv m, wellFormed kv -> Forall wellFormed hs ->
  Textproto.readLoop (Some (Textproto.trim (fst kv +:+ ": " +:+ snd kv))) m
    (List.map (fun kv => fst kv +:+ ": " +:+ snd kv) hs ++ EmptyString :: rest) =
  (fold_left addPair hs (addPair m kv), None).
Proof.
  induction hs as [|kv' hs IH]; intros [k v] m [Hk Hv] Hall; cbn [fst snd] in *.
  - cbn [List.map app Textproto.readLoop Textproto.starts_blank].
    by rewrite (addLine_line k v m Hk Hv).
  - apply Forall_cons in Hall as [Hkv' Hall]. destruct kv' as [k' v'].
    pose proof Hkv' as [Hk' Hv']. cbn [fst snd] in Hk', Hv'.
    cbn [List.map app fst snd fold_left].
    destruct (line_shape k' v' Hk') as (Hsb & Hne & Hcut).
    rewrite (readLoop_next _ _ _ m _ _ Hsb Hne Hcut (addLine_line k v m Hk Hv)).
    exact (IH (k', v') (addPair m (k, v)) Hkv' Hall).
Qed.

Lemma lines_block (hs : list (string * string)) (rest : string) :
  Forall wellFormed hs ->
  Textproto.lines (headerBlock hs +:+ CRLF +:+ rest) =
  List.map (fun kv => fst kv +:+ ": " +:+ snd kv) hs ++
  EmptyString :: Textproto.lines rest.
Proof.
  induction hs as [|[k v] hs IH]; intros Hall; [reflexivity|].
  apply Forall_cons in Hall as [[Hk Hv] Hall]. cbn [fst snd] in Hk, Hv.
  unfold fieldValue in Hv. unfold headerBlock in *. cbn [List.map Strings.concat fst snd].
  rewrite !app_assoc_s.
  rewrite <- (app_assoc_s k), <- (app_assoc_s (k +:+ ": ")).
  rewrite lines_CRLF, (IH Hall), lines_line; [by rewrite app_assoc_s|].
  destruct (fieldName_inv k Hk) as (Hfield & _).
  unfold noLF. rewrite !forallb_app_s, !andb_true_iff. split; [split|].
  - apply (forallb_impl_s Textproto.validHeaderFieldByte); [|exact Hfield].
    intros c Hc. apply field_byte_noLF. by rewrite Hc.
  - reflexivity.
  - exact (forallb_impl_s _ _ _ value_byte_noLF Hv).
Qed.

(** A block of well-formed lines is read without error, line by line. *)
Lemma ReadMIMEHeader_block (hs : list (string * string)) (rest : string) :
  Forall wellFormed hs ->
  Textproto.ReadMIMEHeader (headerBlock hs +:+ CRLF +:+ rest) =
  (fold_left addPair hs ∅, None).
Proof.
  intros Hall. unfold Textproto.ReadMIMEHeader. rewrite (lines_block hs rest Hall).
  destruct hs as [|[k v] hs]; [reflexivity|].
  apply Forall_cons in Hall as [Hkv Hall]. pose proof Hkv as [Hk Hv].
  cbn [fst snd] in Hk, Hv. cbn [List.map app fst snd fold_left].
  destruct (line_shape k v Hk) as (Hsb & Hne & Hcut).
  rewrite Hsb, (readLoop_first _ _ ∅ _ Hne Hcut).
  exact (readLoop_block hs _ (k, v) ∅ Hkv Hall).
Qed.

Lemma fold_addPair_lookup (hs : list (string * string)) (n : string) : forall m,
  default [] (fold_left addPair hs m !! n) =
  default [] (m !! n) ++
  List.map snd (filter (fun kv : string * string => fst kv = n) (List.map readPair hs)).
Proof.
  induction hs as [|kv hs IH]; intros m; [by rewrite List.app_nil_r|].
  cbn [fold_left List.map]. rewrite IH. unfold addPair.
  destruct (decide (fst (readPair kv) = n)) as [Heq|Hne].
  - rewrite filter_cons_True by exact Heq. rewrite Heq, lookup_insert_eq.
    simpl. by rewrite <- List.app_assoc.
  - rewrite filter_cons_False by exact Hne. by rewrite lookup_insert_ne.
Qed.

Lemma pairs_snd (k : string) (l : list (string * string)) :
  Forall (fun kv => fst kv = k) l -> List.map (pair k) (List.map snd l) = l.
Proof.
  induction 1 as [|[k' v] l Hk _ IH]; [reflexivity|].
  cbn [fst] in Hk. subst k'. cbn [List.map snd]. by rewrite IH.
Qed.

Lemma occurrences_cons {A} `{EqDecision A} (x y : A) (l : list A) :
  occurrences x (y :: l) = (if decide (y = x) then 1 else 0) + occurrences x l.
Proof.
  unfold occurrences. rewrite filter_cons. by destruct (decide (y = x)).
Qed.

(** Lists with the same number of occurrences of every element are
    rearrangements of each other. *)
Lemma occurrences_Permutation {A} `{EqDecision A} (l1 : list A) : forall l2,
  (forall x, occurrences x l1 = occurrences x l2) -> l1 ≡ₚ l2.
Proof.
  induction l1 as [|x l1 IH]; intros l2 Hocc.
  - destruct l2 as [|y l2]; [reflexivity|].
    specialize (Hocc y). rewrite occurrences_cons, decide_True in Hocc by reflexivity.
    discriminate.
  - assert (Hin : x ∈ l2).
    { specialize (Hocc x). rewrite occurrences_cons, decide_True in Hocc by reflexivity.
      unfold occurrences in Hocc.
      destruct (filter (fun y => y = x) l2) as [|y f] eqn:Hf; [discriminate|].
      assert (Hy : y ∈ filter (fun y => y = x) l2) by (rewrite Hf; left).
      apply list_elem_of_filter in Hy as [-> Hy]. exact Hy. }
    apply elem_of_Permutation in Hin as [k Hk]. rewrite Hk. constructor.
    apply IH. intros y. specialize (Hocc y).
    rewrite (occurrences_perm y l2 (x :: k) Hk), !occurrences_cons in Hocc. lia.
Qed.

Lemma occurrences_by_name (p : string * string) (l : list (string * string)) :
  occurrences p l = occurrences p (filter (fun kv : string * string => fst kv = fst p) l).
Proof.
  induction l as [|q l IH]; [reflexivity|].
  rewrite occurrences_cons, filter_cons.
  destruct (decide (fst q = fst p)) as [Hq|Hq].
  - by rewrite occurrences_cons, IH.
  - rewrite decide_False by (intros ->; by apply Hq). exact IH.
Qed.

Lemma Permutation_by_name (l1 l2 : list (string * string)) :
  (forall k, filter (fun kv : string * string => fst kv = k) l1 =
             filter (fun kv : string * string => fst kv = k) l2) -> l1 ≡ₚ l2.
Proof.
  intros Hk. apply occurrences_Permutation. intros p.
  by rewrite (occurrences_by_name p l1), (occurrences_by_name p l2), Hk.
Qed.

Lemma filter_kept (k : string) (l : list (string * string)) :
  filter (fun kv : string * string => fst kv = k)
    (filter (fun kv : string * string =>
               ~ (fst kv = "Content-Length" \/ fst kv = "X-Unix-Micro")) l) =
  if decide (k = "Content-Length" \/ k = "X-Unix-Micro") then []
  else filter (fun kv : string * string => fst kv = k) l.
Proof.
  induction l as [|q l IH].
  - by destruct (decide (k = "Content-Length" \/ k = "X-Unix-Micro")).
  - rewrite (filter_cons (fun kv : string * string =>
               ~ (fst kv = "Content-Length" \/ fst kv = "X-Unix-Micro"))).
    destruct (decide (~ (fst q = "Content-Length" \/ fst q = "X-Unix-Micro"))) as [Hq|Hq].
    + rewrite !filter_cons, IH. destruct (decide (fst q = k)) as [Heq|Hne]; [|reflexivity].
      destruct (decide (k = "Content-Length" \/ k = "X-Unix-Micro")) as [Hs|Hs];
        [|reflexivity].
      exfalso. apply Hq. by rewrite Heq.
    + rewrite IH, filter_cons.
      destruct (decide (k = "Content-Length" \/ k = "X-Unix-Micro")) as [Hs|Hs];
        [reflexivity|].
      rewrite decide_False; [reflexivity|]. intros Heq. apply Hq. by rewrite Heq.
Qed.

(** * The stored header block in the rendered command *)

(** ** The text in terms of the header pairs *)

Lemma curlText_pairs (request : Request) :
  curlText request =
  commandText request
    (if Sql.Valid (RequestHeader request)
     then headerPairs (range (curlHeader request)) else []).
Proof.
  rewrite curlText_eq. unfold commandText, headerLines.
  destruct (Sql.Valid (RequestHeader request)); [by rewrite linesOf_pairs|reflexivity].
Qed.

Lemma curlText_valid (request : Request) :
  Sql.Valid (RequestHeader request) = true ->
  curlText request = commandText request (headerPairs (range (curlHeader request))).
Proof. intros Hvalid. by rewrite curlText_pairs, Hvalid. Qed.

(** The pairs of a map that holds the pairs of [hs], one after the other. *)
Lemma pairs_of_block (request : Request) (hs : list (string * string))
    (e : option Textproto.Error) :
  Textproto.ReadMIMEHeader (Sql.String (RequestHeader request) +:+ CRLF +:+ CRLF) =
    (fold_left addPair hs ∅, e) ->
  (forall k, filter (fun kv : string * string => fst kv = k)
               (headerPairs (range (curlHeader request))) =
             filter (fun kv : string * string => fst kv = k) (keptPairs hs)) /\
  headerPairs (range (curlHeader request)) ≡ₚ keptPairs hs.
Proof using range_perm.
  intros Hread.
  assert (Hname : forall k,
            filter (fun kv : string * string => fst kv = k)
              (headerPairs (range (curlHeader request))) =
            filter (fun kv : string * string => fst kv = k) (keptPairs hs)).
  { intros k. unfold keptPairs. rewrite (pairs_of_name request k), Hread, filter_kept.
    destruct (decide (k = "Content-Length" \/ k = "X-Unix-Micro")); [reflexivity|].
    cbn [fst]. rewrite fold_addPair_lookup, lookup_empty. cbn [default app].
    apply pairs_snd. apply List.Forall_forall. intros x Hin.
    apply list_elem_of_In, list_elem_of_filter in Hin. by destruct Hin. }
  split; [exact Hname|]. by apply Permutation_by_name.
Qed.

(** ** C3: the two names that are deleted *)

Lemma lower_field_byte (c : ascii) :
  Textproto.validHeaderFieldByte (Bytes.to_lower c) = Textproto.validHeaderFieldByte c.
Proof. destruct c as [[] [] [] [] [] [] [] []]; vm_compute; reflexivity. Qed.

Lemma canonicalize_lower_byte (upper : bool) (c : ascii) :
  (if upper && Bytes.is_lower (Bytes.to_lower c) then Bytes.to_upper (Bytes.to_lower c)
   else if negb upper && Bytes.is_upper (Bytes.to_lower c)
        then Bytes.to_lower (Bytes.to_lower c)
        else Bytes.to_lower c) =
  (if upper && Bytes.is_lower c then Bytes.to_upper c
   else if negb upper && Bytes.is_upper c then Bytes.to_lower c
   else c).
Proof. destruct upper, c as [[] [] [] [] [] [] [] []]; vm_compute; reflexivity. Qed.

(** The canonical form of a name does not depend on the letter case in
    which it is spelled. *)
Lemma canonicalize_lower (a : string) : forall upper,
  Textproto.canonicalize upper (Strings.map Bytes.to_lower a) =
  Textproto.canonicalize upper a.
Proof.
  induction a as [|c a IH]; intros upper; [reflexivity|].
  cbn [Strings.map Textproto.canonicalize]. rewrite (canonicalize_lower_byte upper c).
  by rewrite IH.
Qed.

Lemma forallb_map_s (p : ascii -> bool) (f : ascii -> ascii) (s : string) :
  (forall c, p (f c) = p c) ->
  Strings.forallb p (Strings.map f s) = Strings.forallb p s.
Proof.
  intros Hpf. induction s as [|c s IH]; [reflexivity|].
  cbn [Strings.map Strings.forallb]. by rewrite Hpf, IH.
Qed.

Lemma fieldName_lower (a : string) :
  fieldName (Strings.map Bytes.to_lower a) = fieldName a.
Proof.
  unfold fieldName. rewrite (forallb_map_s _ _ a lower_field_byte).
  by destruct a.
Qed.

Lemma canonical_token (k : string) :
  fieldName k = true ->
  Textproto.CanonicalMIMEHeaderKey k = Textproto.canonicalize true k.
Proof.
  intros Hk. destruct (fieldName_inv k Hk) as (Hall & c & k' & -> & Hc).
  unfold Textproto.CanonicalMIMEHeaderKey, Textproto.canonicalMIMEHeaderKey.
  rewrite Hall.
  assert (Hsp : Strings.forallb
                  (fun c => Textproto.validHeaderFieldByte c || Ascii.eqb c Bytes.SP)
                  (String c k') = true).
  { apply (forallb_impl_s Textproto.validHeaderFieldByte); [|exact Hall].
    intros x Hx. by rewrite Hx. }
  by rewrite Hsp.
Qed.

Lemma canonical_any_case (a name : string) :
  fieldName name = true ->
  Strings.map Bytes.to_lower a = Strings.map Bytes.to_lower name ->
  Textproto.CanonicalMIMEHeaderKey a = Textproto.CanonicalMIMEHeaderKey name.
Proof.
  intros Hname Hlow.
  assert (Ha : fieldName a = true)
    by (by rewrite <- fieldName_lower, Hlow, fieldName_lower).
  rewrite (canonical_token a Ha), (canonical_token name Hname).
  by rewrite <- (canonicalize_lower a), Hlow, canonicalize_lower.
Qed.

(** C3, amended. For a record with a stored header block, the command is
    the request line, the authorization line, one line [-H 'Name: value']
    for each value that is left in the header map, the body and a newline.
    No line has the name [Content-Length] or [X-Unix-Micro]: a header
    that the block spells with either name, in whatever letter case, is
    filed under that name and deleted.  Names are compared as the reader
    files them, so a name spelled with a space before the colon is another
    name and is rendered.  Every value of every other name is rendered as
    one line, a name with several values has one line for each. *)
Theorem stripped_headers_not_rendered (request : Request) :
  Sql.Valid (RequestHeader request) = true ->
  let parsed := fst (Textproto.ReadMIMEHeader
                       (Sql.String (RequestHeader request) +:+ CRLF +:+ CRLF)) in
  let emitted := headerPairs (range (curlHeader request)) in
  curlText request = commandText request emitted /\
  (forall k v, In (k, v) emitted -> k <> "Content-Length" /\ k <> "X-Unix-Micro") /\
  (forall a v,
     Strings.map Bytes.to_lower a = "content-length" \/
     Strings.map Bytes.to_lower a = "x-unix-micro" ->
     ~ In (Textproto.CanonicalMIMEHeaderKey a, v) emitted) /\
  (forall k v, k <> "Content-Length" -> k <> "X-Unix-Micro" ->
     occurrences (k, v) emitted = occurrences v (default [] (parsed !! k))) /\
  Textproto.ReadMIMEHeader (spacedBlock +:+ CRLF +:+ CRLF) =
    ({["Content-Length " := ["5"]]}, None).
Proof using range_perm.
  intros Hvalid parsed emitted.
  assert (Hperm : emitted ≡ₚ headerPairs (map_to_list (curlHeader request))).
  { unfold emitted, headerPairs. by rewrite (range_perm (curlHeader request)). }
  assert (Hnames : forall k v, In (k, v) emitted ->
            k <> "Content-Length" /\ k <> "X-Unix-Micro").
  { intros k v Hin.
    apply headerPairs_key in Hin as [vv Hin].
    apply list_elem_of_In in Hin. rewrite (range_perm (curlHeader request)) in Hin.
    apply elem_of_map_to_list in Hin. rewrite curlHeader_lookup in Hin.
    destruct (decide (k = "Content-Length" \/ k = "X-Unix-Micro")) as [|Hk]; [discriminate|].
    split; intros Heq; apply Hk; auto. }
  split; [by apply curlText_valid|]. split; [exact Hnames|]. split.
  - intros a v Hlow Hin. apply Hnames in Hin as [H1 H2].
    destruct Hlow as [Hlow|Hlow].
    + apply H1. exact (canonical_any_case a "Content-Length" eq_refl Hlow).
    + apply H2. exact (canonical_any_case a "X-Unix-Micro" eq_refl Hlow).
  - split; [|vm_compute; reflexivity]. intros k v Hk1 Hk2.
    rewrite (occurrences_perm _ _ _ Hperm), occurrences_headerPairs, curlHeader_lookup.
    destruct (decide (k = "Content-Length" \/ k = "X-Unix-Micro")) as [[Heq|Heq]|_];
      [contradiction..|reflexivity].
Qed.

(** ** C4: the authorization line and a stored key *)

Lemma single_header_block (name value : string) :
  (name +:+ ": " +:+ value) +:+ CRLF +:+ CRLF =
  headerBlock [(name, value)] +:+ CRLF +:+ EmptyString.
Proof.
  unfold headerBlock. cbn [List.map Strings.concat fst snd].
  by rewrite !app_assoc_s, !app_nil_r.
Qed.

(** C4. The command always holds the fixed line
    [-H "Authorization: Bearer $MOONSHOT_API_KEY"] right after the request
    line, which the shell fills in from the environment of whoever runs
    the command.  But [Authorization] is not among the names that are
    deleted from the stored header block: when the block is an
    [Authorization] header, its value is rendered after the fixed line. *)
Theorem authorization_line_fixed :
  (forall request, exists rest,
     curlText request =
       requestLine request +:+ continuation +:+ authorization +:+ continuation +:+ rest) /\
  (forall env request, exists rest,
     Shell.eval env (curlText request) =
       Some (["curl"; "-X"; RequestMethod request; Url request;
              "-H"; "Authorization: Bearer " +:+ env "MOONSHOT_API_KEY"] ++ rest)) /\
  (forall request value,
     Sql.Valid (RequestHeader request) = true ->
     Sql.String (RequestHeader request) = "Authorization: " +:+ value ->
     fieldValue value = true ->
     curlText request =
       commandText request [("Authorization", Textproto.trim value)]).
Proof using range_perm.
  split; [|split].
  - intros request. rewrite curlText_eq. unfold continued.
    cbn [List.map Strings.concat]. rewrite !app_assoc_s. eauto.
  - intros env request. rewrite eval_curlText. unfold curlArgv. eauto.
  - intros request value Hvalid Hblock Hvalue.
    rewrite (curlText_valid request Hvalid). f_equal.
    assert (Hread : Textproto.ReadMIMEHeader
                      (Sql.String (RequestHeader request) +:+ CRLF +:+ CRLF) =
                    (fold_left addPair [("Authorization", value)] ∅, None)).
    { rewrite Hblock.
      change ("Authorization: " +:+ value) with ("Authorization" +:+ ": " +:+ value).
      rewrite single_header_block. apply ReadMIMEHeader_block.
      constructor; [|constructor]. by split. }
    destruct (pairs_of_block request _ _ Hread) as [_ Hperm].
    change (keptPairs [("Authorization", value)])
      with [("Authorization", Textproto.trim value)] in Hperm.
    by apply Permutation_singleton_r in Hperm.
Qed.

(** ** The header lines in the text *)

(** X3. Whatever the order in which the header map is visited, the [-H]
    lines of one header name stand in the command in the order of its
    values in the parsed block: the command is made of the rendered
    (name, value) pairs in their order, and the pairs of one name are its
    parsed values in their order (none for the two deleted names). *)
Theorem header_values_keep_order (request : Request) (k : string) :
  Sql.Valid (RequestHeader request) = true ->
  let parsed := fst (Textproto.ReadMIMEHeader
                       (Sql.String (RequestHeader request) +:+ CRLF +:+ CRLF)) in
  let emitted := headerPairs (range (curlHeader request)) in
  curlText request = commandText request emitted /\
  filter (fun kv : string * string => fst kv = k) emitted =
  if decide (k = "Content-Length" \/ k = "X-Unix-Micro") then []
  else List.map (pair k) (default [] (parsed !! k)).
Proof using range_perm.
  intros Hvalid parsed emitted. split; [by apply curlText_valid|].
  apply pairs_of_name.
Qed.

Lemma countByte_app (c : ascii) (s t : string) :
  countByte c (s +:+ t) = countByte c s + countByte c t.
Proof.
  induction s as [|x s IH]; [reflexivity|].
  rewrite app_cons. cbn [countByte]. rewrite IH. lia.
Qed.

Lemma countByte_escape_LF (s : string) :
  countByte Bytes.LF (escape s) = countByte Bytes.LF s.
Proof.
  unfold escape. induction s as [|c s IH]; [reflexivity|].
  cbn [Strings.ReplaceAll countByte]. destruct (Ascii.eqb c Bytes.squote) eqn:Hq.
  - apply Ascii.eqb_eq in Hq. subst c. rewrite countByte_app, IH. reflexivity.
  - cbn [countByte]. by rewrite IH.
Qed.

Lemma noLF_count (s : string) : noLF s = true -> countByte Bytes.LF s = 0.
Proof.
  unfold noLF. induction s as [|c s IH]; [reflexivity|].
  cbn [Strings.forallb countByte]. rewrite andb_true_iff, negb_true_iff.
  intros [-> Hs]. by rewrite (IH Hs).
Qed.

Lemma countByte_continued (ls : list string) :
  Forall (fun l => noLF l = true) ls ->
  countByte Bytes.LF (continued ls) = length ls.
Proof.
  unfold continued. induction 1 as [|l ls Hl _ IH]; [reflexivity|].
  cbn [List.map Strings.concat length]. rewrite !countByte_app, IH, (noLF_count l Hl).
  reflexivity.
Qed.

Lemma headerLines_noLF (request : Request) :
  Forall (fun l => noLF l = true) (headerLines request).
Proof using range_perm.
  unfold headerLines. destruct (Sql.Valid (RequestHeader request)); [|constructor].
  assert (Hm : linesFree (curlHeader request)).
  { unfold curlHeader, Textproto.Del.
    do 2 apply map_Forall_delete. apply ReadMIMEHeader_linesFree. }
  apply List.Forall_forall. intros l Hin. unfold linesOf in Hin.
  apply in_flat_map in Hin as [[k vv] [Hkv Hl]].
  apply in_map_iff in Hl as [v [<- Hv]]. cbn [fst snd] in *.
  apply list_elem_of_In in Hkv. rewrite (range_perm (curlHeader request)) in Hkv.
  apply elem_of_map_to_list in Hkv. destruct (Hm _ _ Hkv) as [Hk Hvv].
  apply headerLine_noLF; [exact Hk|].
  rewrite List.Forall_forall in Hvv. by apply Hvv.
Qed.

(** X4. Each header line with its continuation is one line of the
    command, whatever the stored header block is: the command is the
    request line, the authorization line and the header lines, each
    followed by the line continuation, then the body and a newline; no
    header line holds a line feed; so the line feeds of the command are
    those of the method, the URL and the body, one for each header line,
    and three more (after the request line, after the authorization line,
    at the end). *)
Theorem header_lines_have_no_newline (request : Request) :
  curlText request =
    continued (requestLine request :: authorization :: headerLines request) +:+
    (if Sql.Valid (RequestBody request) then bodyLine request else EmptyString) +:+
    Strings.str1 Bytes.LF /\
  Forall (fun l => noLF l = true) (headerLines request) /\
  countByte Bytes.LF (curlText request) =
    countByte Bytes.LF (RequestMethod request) + countByte Bytes.LF (Url request) +
    length (headerLines request) +
    (if Sql.Valid (RequestBody request)
     then countByte Bytes.LF (Sql.String (RequestBody request)) else 0) + 3.
Proof using range_perm.
  split; [apply curlText_eq|]. split; [apply headerLines_noLF|].
  rewrite curlText_eq. unfold continued. cbn [List.map Strings.concat].
  fold (continued (headerLines request)).
  rewrite !countByte_app, (countByte_continued _ (headerLines_noLF request)).
  unfold requestLine. rewrite !countByte_app, !countByte_escape_LF.
  assert (Hbody : countByte Bytes.LF
                    (if Sql.Valid (RequestBody request)
                     then bodyLine request else EmptyString) =
                  if Sql.Valid (RequestBody request)
                  then countByte Bytes.LF (Sql.String (RequestBody request)) else 0).
  { destruct (Sql.Valid (RequestBody request)); [|reflexivity].
    unfold bodyLine. rewrite !countByte_app, countByte_escape_LF.
    change (countByte Bytes.LF "-d '") with 0.
    change (countByte Bytes.LF "'") with 0. lia. }
  rewrite Hbody.
  change (countByte Bytes.LF "curl -X '") with 0.
  change (countByte Bytes.LF "' '") with 0.
  change (countByte Bytes.LF "' ") with 0.
  change (countByte Bytes.LF continuation) with 1.
  change (countByte Bytes.LF authorization) with 0.
  change (countByte Bytes.LF (Strings.str1 Bytes.LF)) with 1.
  lia.
Qed.

(** X12. The headers of a well-formed stored block come back in the
    command: when the block is a sequence of lines [name: value] ended by
    ["\r\n"] (the last line end may be missing), with names of token bytes
    and values of value bytes, it is read without error, and the command
    is made of the stored (name, value) pairs, each name in canonical form
    and each value without the blanks around it, minus the two deleted
    names: for each name in the stored order, and as a whole up to the
    order of the names. *)
Theorem stored_headers_come_back (request : Request) (hs : list (string * string)) :
  Sql.Valid (RequestHeader request) = true ->
  Sql.String (RequestHeader request) = headerBlock hs \/
    Sql.String (RequestHeader request) +:+ CRLF = headerBlock hs ->
  Forall wellFormed hs ->
  let emitted := headerPairs (range (curlHeader request)) in
  snd (Textproto.ReadMIMEHeader
         (Sql.String (RequestHeader request) +:+ CRLF +:+ CRLF)) = None /\
  curlText request = commandText request emitted /\
  (forall k, filter (fun kv : string * string => fst kv = k) emitted =
             filter (fun kv : string * string => fst kv = k) (keptPairs hs)) /\
  emitted ≡ₚ keptPairs hs.
Proof using range_perm.
  intros Hvalid Hblock Hall emitted.
  assert (Hread : Textproto.ReadMIMEHeader
                    (Sql.String (RequestHeader request) +:+ CRLF +:+ CRLF) =
                  (fold_left addPair hs ∅, None)).
  { destruct Hblock as [-> | Hblock]; [by apply ReadMIMEHeader_block|].
    rewrite <- (ReadMIMEHeader_block hs EmptyString Hall), <- Hblock, app_assoc_s.
    reflexivity. }
  split; [by rewrite Hread|]. split; [by apply curlText_valid|].
  exact (pairs_of_block request hs None Hread).
Qed.

(** ** C9: the terminator of the header block *)

(** A line end after a text adds at most one empty line to its lines. *)
Lemma lines_pad (n : nat) : forall s, String.length s <= n ->
  exists pad, (pad = [] \/ pad = [EmptyString]) /\
    Textproto.lines (s +:+ CRLF) = Textproto.lines s ++ pad.
Proof.
  induction n as [|n IH]; intros s Hlen.
  - destruct s; [|simpl in Hlen; lia]. exists [EmptyString]. by split; [right|].
  - destruct s as [|c s]; [exists [EmptyString]; by split; [right|]|].
    simpl in Hlen. rewrite app_cons. cbn [Textproto.lines].
    destruct (Ascii.eqb c Bytes.LF).
    { destruct (IH s ltac:(lia)) as (pad & Hpad & Heq).
      exists pad. split; [exact Hpad|]. by rewrite Heq. }
    destruct s as [|c' s].
    { change (EmptyString +:+ CRLF) with (String Bytes.CR (String Bytes.LF EmptyString)).
      cbv beta iota. rewrite andb_false_r. exists []. by split; [left|]. }
    rewrite app_cons. cbv beta iota.
    destruct (Ascii.eqb c Bytes.CR && Ascii.eqb c' Bytes.LF).
    { simpl in Hlen. destruct (IH s ltac:(lia)) as (pad & Hpad & Heq).
      exists pad. split; [exact Hpad|]. by rewrite Heq. }
    rewrite <- app_cons.
    destruct (IH (String c' s) ltac:(simpl in *; lia)) as (pad & Hpad & Heq).
    exists pad. split; [exact Hpad|]. rewrite Heq.
    apply cons_hd_app_r, lines_nonempty.
Qed.

(** A blank line ends the reading with the headers read so far. *)
Lemma readLoop_fst_blank (ls rest : list string) : forall pending m,
  fst (Textproto.readLoop pending m (ls ++ EmptyString :: rest)) =
  fst (Textproto.readLoop pending m ls).
Proof.
  induction ls as [|l ls IH]; intros pending m.
  - destruct pending as [buf|]; [|reflexivity].
    cbn [app Textproto.readLoop Textproto.starts_blank].
    by destruct (Textproto.addLine buf m) as [m' [err|]].
  - change ((l :: ls) ++ EmptyString :: rest) with (l :: (ls ++ EmptyString :: rest)).
    destruct pending as [buf|]; cbn [Textproto.readLoop].
    + destruct (Textproto.starts_blank l); [apply IH|].
      destruct (Textproto.addLine buf m) as [m' [err|]]; [reflexivity|].
      destruct l as [|c l]; [reflexivity|].
      destruct (Textproto.cut ":"%char (String c l)); [apply IH|reflexivity].
    + destruct l as [|c l]; [reflexivity|].
      destruct (Textproto.cut ":"%char (String c l)); [apply IH|reflexivity].
Qed.

(** The appended blank line changes how the reading ends, not what is
    read. *)
Lemma ReadMIMEHeader_terminator (s : string) :
  fst (Textproto.ReadMIMEHeader (s +:+ CRLF +:+ CRLF)) =
  fst (Textproto.ReadMIMEHeader s).
Proof.
  unfold Textproto.ReadMIMEHeader. rewrite (lines_CRLF s CRLF).
  change (Textproto.lines CRLF) with [EmptyString].
  destruct (lines_pad (String.length s) s (le_n _)) as (pad & Hpad & ->).
  destruct (Textproto.lines s) as [|l ls].
  - by destruct Hpad as [-> | ->].
  - change (((l :: ls) ++ pad) ++ [EmptyString])
      with (l :: ((ls ++ pad) ++ [EmptyString])).
    cbv beta iota. destruct (Textproto.starts_blank l); [reflexivity|].
    change (l :: ((ls ++ pad) ++ [EmptyString]))
      with (((l :: ls) ++ pad) ++ [EmptyString]).
    destruct Hpad as [-> | ->].
    + rewrite List.app_nil_r. apply readLoop_fst_blank.
    + rewrite <- List.app_assoc. apply readLoop_fst_blank.
Qed.

(** C9. A stored header block is read with ["\r\n\r\n"] appended, and only
    when it is present: the command of a record with a header block holds
    the header lines of the map that is read from the block with the blank
    line after it; with the blank line the reading never ends for want of
    text, and it reads the same headers as without.  The command of a
    record without header block has no header line at all: it is the
    request line, the authorization line, the body and a newline. *)
Theorem header_block_terminated (request : Request) :
  (Sql.Valid (RequestHeader request) = true ->
     curlText request =
       commandText request
         (headerPairs (range
            (Textproto.Del "X-Unix-Micro"
               (Textproto.Del "Content-Length"
                  (fst (Textproto.ReadMIMEHeader
                          (Sql.String (RequestHeader request) +:+ CRLF +:+ CRLF))))))) /\
     snd (Textproto.ReadMIMEHeader
            (Sql.String (RequestHeader request) +:+ CRLF +:+ CRLF)) <> Some Textproto.EOF /\
     fst (Textproto.ReadMIMEHeader
            (Sql.String (RequestHeader request) +:+ CRLF +:+ CRLF)) =
     fst (Textproto.ReadMIMEHeader (Sql.String (RequestHeader request)))) /\
  (Sql.Valid (RequestHeader request) = false ->
     curlText request = commandText request [] /\
     curlText request =
       requestLine request +:+ continuation +:+ authorization +:+ continuation +:+
       (if Sql.Valid (RequestBody request) then bodyLine request else EmptyString) +:+
       Strings.str1 Bytes.LF) /\
  snd (Textproto.ReadMIMEHeader "Accept: a") = Some Textproto.EOF /\
  Textproto.ReadMIMEHeader ("Accept: a" +:+ CRLF +:+ CRLF) = ({["Accept" := ["a"]]}, None).
Proof.
  split; [|split; [|split]].
  - intros Hvalid. split; [exact (curlText_valid request Hvalid)|].
    split; [apply ReadMIMEHeader_terminated|apply ReadMIMEHeader_terminator].
  - intros Hvalid. pose proof (curlText_pairs request) as Htext.
    rewrite Hvalid in Htext. split; [exact Htext|].
    rewrite Htext. unfold commandText, continued. cbn [List.map Strings.concat].
    by rewrite !app_assoc_s.
  - vm_compute. reflexivity.
  - vm_compute. reflexivity.
Qed.

(** ** C8: a header block that cannot be parsed *)

Lemma addLine_failed (kv : string) (m m' : Textproto.MIMEHeader) (e : Textproto.Error) :
  Textproto.addLine kv m = (m', Some e) -> m' = m.
Proof.
  unfold Textproto.addLine.
  destruct (Textproto.cut ":"%char kv) as [[k v]|]; [|by intros [= <- _]].
  destruct (Textproto.canonicalMIMEHeaderKey k) as [key ok].
  destruct ok; cbn [negb]; [|by intros [= <- _]].
  destruct (Strings.forallb Textproto.validHeaderValueByte v); cbn [negb];
    [discriminate|by intros [= <- _]].
Qed.

(** When the loop of [readMIMEHeader] fails, it has read what it reads
    from some of the first lines alone.  [h] are the lines read on the way
    to the state [(pending, m0)]. *)
Lemma readLoop_prefix (ls : list string) : forall h pending m0 m err,
  (forall X, Textproto.readLoop None ∅ (h ++ X) = Textproto.readLoop pending m0 X) ->
  (exists j, j <= length h /\
     Textproto.readLoop None ∅ (take j h ++ [EmptyString]) = (m0, None)) ->
  Textproto.readLoop pending m0 ls = (m, Some err) -> err <> Textproto.EOF ->
  exists n, Textproto.readLoop None ∅ (take n (h ++ ls) ++ [EmptyString]) = (m, None).
Proof.
  induction ls as [|l ls IH]; intros h pending m0 m err Hreplay (j & Hj & Hgood) Hrun Herr.
  - destruct pending as [buf|]; cbn [Textproto.readLoop] in Hrun.
    + destruct (Textproto.addLine buf m0) as [m' [e|]] eqn:Hadd.
      * injection Hrun as <- _. apply addLine_failed in Hadd as ->.
        exists j. by rewrite take_app_le.
      * injection Hrun as _ <-. congruence.
    + injection Hrun as _ <-. congruence.
  - assert (Hshift : forall n, take n ((h ++ [l]) ++ ls) = take n (h ++ l :: ls))
      by (intros n; by rewrite <- List.app_assoc).
    assert (Hkeep : exists j, j <= length (h ++ [l]) /\
              Textproto.readLoop None ∅ (take j (h ++ [l]) ++ [EmptyString]) = (m0, None)).
    { exists j. split; [rewrite length_app; lia|]. by rewrite take_app_le. }
    destruct pending as [buf|]; cbn [Textproto.readLoop] in Hrun.
    + destruct (Textproto.starts_blank l) eqn:Hsb.
      { destruct (IH (h ++ [l])
                    (Some (buf +:+ Strings.str1 Bytes.SP +:+ Textproto.trim l)) m0 m err)
          as [n Hn]; [|exact Hkeep|exact Hrun|exact Herr|exists n; by rewrite <- Hshift].
        intros X. rewrite <- List.app_assoc. cbn [app]. rewrite Hreplay.
        cbn [Textproto.readLoop]. by rewrite Hsb. }
      destruct (Textproto.addLine buf m0) as [m' [e|]] eqn:Hadd.
      { injection Hrun as <- _. apply addLine_failed in Hadd as ->.
        exists j. by rewrite take_app_le. }
      assert (Hh : Textproto.readLoop None ∅ (h ++ [EmptyString]) = (m', None)).
      { rewrite Hreplay. cbn [Textproto.readLoop Textproto.starts_blank].
        by rewrite Hadd. }
      destruct l as [|c l]; [discriminate Hrun|].
      destruct (Textproto.cut ":"%char (String c l)) as [kv|] eqn:Hcut.
      * destruct (IH (h ++ [String c l]) (Some (Textproto.trim (String c l))) m' m err)
          as [n Hn]; [| |exact Hrun|exact Herr|exists n; by rewrite <- Hshift].
        -- intros X. rewrite <- List.app_assoc. cbn [app]. rewrite Hreplay.
           cbn [Textproto.readLoop]. by rewrite Hsb, Hadd, Hcut.
        -- exists (length h). split; [rewrite length_app; lia|].
           by rewrite take_app_length.
      * injection Hrun as <- _. exists (length h). by rewrite take_app_length.
    + destruct l as [|c l]; [discriminate Hrun|].
      destruct (Textproto.cut ":"%char (String c l)) as [kv|] eqn:Hcut.
      * destruct (IH (h ++ [String c l]) (Some (Textproto.trim (String c l))) m0 m err)
          as [n Hn]; [|exact Hkeep|exact Hrun|exact Herr|exists n; by rewrite <- Hshift].
        intros X. rewrite <- List.app_assoc. cbn [app]. rewrite Hreplay.
        cbn [Textproto.readLoop]. by rewrite Hcut.
      * injection Hrun as <- _. exists j. by rewrite take_app_le.
Qed.

Lemma lines_noLF (n : nat) : forall s, String.length s <= n ->
  Forall (fun l => noLF l = true) (Textproto.lines s).
Proof.
  induction n as [|n IH]; intros s Hlen.
  - destruct s; [constructor|simpl in Hlen; lia].
  - destruct s as [|c s]; [constructor|]. simpl in Hlen. cbn [Textproto.lines].
    destruct (Ascii.eqb c Bytes.LF) eqn:Hc.
    { constructor; [reflexivity|apply IH; lia]. }
    assert (Hone : noLF (Strings.str1 c) = true).
    { unfold noLF. cbn [Strings.str1 Strings.forallb]. by rewrite Hc. }
    destruct s as [|c' s]; [by constructor|].
    destruct (Ascii.eqb c Bytes.CR && Ascii.eqb c' Bytes.LF).
    { constructor; [reflexivity|]. apply IH. simpl in Hlen. lia. }
    pose proof (IH (String c' s) ltac:(simpl in *; lia)) as Hs.
    destruct (Textproto.lines (String c' s)) as [|x xs]; [by constructor|].
    cbn [Textproto.cons_hd]. apply Forall_cons in Hs as [Hx Hxs].
    constructor; [|exact Hxs]. unfold noLF in *. cbn [Strings.forallb]. by rewrite Hc, Hx.
Qed.

(** Lines that are put together again are read as the same lines. *)
Lemma lines_linesBlock (ls : list string) (t : string) :
  Forall (fun l => noLF l = true) ls ->
  Textproto.lines (linesBlock ls +:+ t) = ls ++ Textproto.lines t.
Proof.
  unfold linesBlock. induction 1 as [|l ls Hl _ IH]; [reflexivity|].
  cbn [List.map Strings.concat]. rewrite !app_assoc_s.
  by rewrite lines_CRLF, (lines_line l Hl), IH.
Qed.

(** The headers that [ReadMIMEHeader] returns with an error are those of
    some of the first lines of the block, read alone. *)
Lemma ReadMIMEHeader_prefix (s : string) (m : Textproto.MIMEHeader) (err : Textproto.Error) :
  Textproto.ReadMIMEHeader (s +:+ CRLF +:+ CRLF) = (m, Some err) ->
  exists n,
    Textproto.ReadMIMEHeader (linesBlock (take n (Textproto.lines s)) +:+ CRLF) =
    (m, None).
Proof.
  intros Hread.
  pose proof (ReadMIMEHeader_terminated s) as Hterm. rewrite Hread in Hterm.
  cbn [snd] in Hterm.
  assert (Herr : err <> Textproto.EOF) by congruence.
  unfold Textproto.ReadMIMEHeader in Hread. rewrite (lines_CRLF s CRLF) in Hread.
  change (Textproto.lines CRLF) with [EmptyString] in Hread.
  destruct (lines_pad (String.length s) s (le_n _)) as (pad & Hpad & Heq).
  rewrite Heq in Hread.
  pose proof (lines_noLF (String.length s) s (le_n _)) as Hno.
  assert (Hrest : exists T, pad ++ [EmptyString] = EmptyString :: T).
  { destruct Hpad as [-> | ->]; eauto. }
  destruct Hrest as [T HT]. rewrite <- List.app_assoc, HT in Hread.
  destruct (Textproto.lines s) as [|l ls] eqn:Hls.
  { cbn in Hread. discriminate Hread. }
  change ((l :: ls) ++ EmptyString :: T) with (l :: (ls ++ EmptyString :: T)) in Hread.
  cbv beta iota in Hread.
  destruct (Textproto.starts_blank l) eqn:Hsb.
  { injection Hread as <- _. exists 0. reflexivity. }
  change (l :: (ls ++ EmptyString :: T)) with ((l :: ls) ++ EmptyString :: T) in Hread.
  destruct (readLoop_prefix _ [] None ∅ m err (fun X => eq_refl)
              (ex_intro _ 0 (conj (le_n 0) eq_refl)) Hread Herr) as [n0 Hn0].
  rewrite List.app_nil_l in Hn0.
  assert (Hn : exists n, Textproto.readLoop None ∅ (take n (l :: ls) ++ [EmptyString]) =
                         (m, None)).
  { destruct (decide (n0 <= length (l :: ls))) as [Hle|Hgt].
    - exists n0. by rewrite take_app_le in Hn0.
    - exists (length (l :: ls)). rewrite take_ge by lia.
      rewrite take_app in Hn0. rewrite take_ge in Hn0 by lia.
      destruct (n0 - length (l :: ls)) as [|k] eqn:Hk; [lia|].
      cbn [take] in Hn0. rewrite <- List.app_assoc in Hn0.
      change ((EmptyString :: take k T) ++ [EmptyString])
        with (EmptyString :: (take k T ++ [EmptyString])) in Hn0.
      by rewrite readLoop_blank in Hn0. }
  destruct Hn as [n Hn]. exists n.
  unfold Textproto.ReadMIMEHeader.
  rewrite lines_linesBlock by (by apply Forall_take).
  change (Textproto.lines CRLF) with [EmptyString].
  destruct n as [|n]; [exact Hn|].
  cbn [take app] in *. cbv beta iota. by rewrite Hsb.
Qed.

Lemma readLoop_block_bad (hs : list (string * string)) (bad : string) (rest : list string) :
  forall kv m, wellFormed kv -> Forall wellFormed hs -> malformedLine bad ->
  Textproto.readLoop (Some (Textproto.trim (fst kv +:+ ": " +:+ snd kv))) m
    (List.map (fun kv => fst kv +:+ ": " +:+ snd kv) hs ++ bad :: rest) =
  (fold_left addPair hs (addPair m kv), Some Textproto.ProtocolError).
Proof.
  induction hs as [|kv' hs IH]; intros [k v] m [Hk Hv] Hall Hbad; cbn [fst snd] in *.
  - destruct Hbad as (Hne & Hsb & _ & Hcut).
    cbn [List.map app Textproto.readLoop fold_left].
    rewrite Hsb, (addLine_line k v m Hk Hv).
    destruct bad as [|c bad]; [congruence|]. by rewrite Hcut.
  - apply Forall_cons in Hall as [Hkv' Hall]. destruct kv' as [k' v'].
    pose proof Hkv' as [Hk' Hv']. cbn [fst snd] in Hk', Hv'.
    cbn [List.map app fst snd fold_left].
    destruct (line_shape k' v' Hk') as (Hsb & Hne & Hcut).
    rewrite (readLoop_next _ _ _ m _ _ Hsb Hne Hcut (addLine_line k v m Hk Hv)).
    exact (IH (k', v') (addPair m (k, v)) Hkv' Hall Hbad).
Qed.

Lemma lines_block_app (hs : list (string * string)) (t : string) :
  Forall wellFormed hs ->
  Textproto.lines (headerBlock hs +:+ t) =
  List.map (fun kv => fst kv +:+ ": " +:+ snd kv) hs ++ Textproto.lines t.
Proof.
  induction hs as [|[k v] hs IH]; intros Hall; [reflexivity|].
  apply Forall_cons in Hall as [[Hk Hv] Hall]. cbn [fst snd] in Hk, Hv.
  unfold fieldValue in Hv. unfold headerBlock in *. cbn [List.map Strings.concat fst snd].
  rewrite !app_assoc_s.
  rewrite <- (app_assoc_s k), <- (app_assoc_s (k +:+ ": ")).
  rewrite lines_CRLF, (IH Hall), lines_line; [by rewrite app_assoc_s|].
  destruct (fieldName_inv k Hk) as (Hfield & _).
  unfold noLF. rewrite !forallb_app_s, !andb_true_iff. split; [split|].
  - apply (forallb_impl_s Textproto.validHeaderFieldByte); [|exact Hfield].
    intros c Hc. apply field_byte_noLF. by rewrite Hc.
  - reflexivity.
  - exact (forallb_impl_s _ _ _ value_byte_noLF Hv).
Qed.

(** Well-formed lines before a line without colon are read, the rest of
    the block is not. *)
Lemma ReadMIMEHeader_block_bad (hs : list (string * string)) (bad rest : string) :
  Forall wellFormed hs -> malformedLine bad ->
  Textproto.ReadMIMEHeader (headerBlock hs +:+ bad +:+ CRLF +:+ rest) =
  (fold_left addPair hs ∅, Some Textproto.ProtocolError).
Proof.
  intros Hall Hbad. pose proof Hbad as (Hne & Hsb & Hno & Hcut).
  unfold Textproto.ReadMIMEHeader.
  rewrite (lines_block_app hs _ Hall), lines_CRLF, (lines_line bad Hno).
  cbn [app].
  destruct hs as [|[k v] hs].
  - cbn [List.map app fold_left]. rewrite Hsb. cbn [Textproto.readLoop].
    destruct bad as [|c bad]; [congruence|]. by rewrite Hcut.
  - apply Forall_cons in Hall as [Hkv Hall]. pose proof Hkv as [Hk Hv].
    cbn [fst snd] in Hk, Hv. cbn [List.map app fst snd fold_left].
    destruct (line_shape k v Hk) as (Hsb' & Hne' & Hcut').
    rewrite Hsb', (readLoop_first _ _ ∅ _ Hne' Hcut').
    exact (readLoop_block_bad hs bad _ (k, v) ∅ Hkv Hall Hbad).
Qed.

(** C8, amended. A stored header block whose parsing fails does not abort
    the rendering, and the failure is not reported.  The command is the
    request line, the authorization line, the header lines of the map
    that the reader returned with its error (minus the two deleted
    names), the body and a newline; that map holds the headers of some of
    the first lines of the block, read alone.  So well-formed lines before
    a line without colon are rendered, and what follows that line is not.
    When no header was read before the failure, the command has no header
    lines, as for a record without header block. *)
Theorem malformed_header_block_tolerated (request : Request) :
  (forall w : Io.Buffer,
     snd (writeCurlCommand (W := Io.Buffer) (E := unit) request w) = None) /\
  (Sql.Valid (RequestHeader request) = true ->
   forall m err,
     Textproto.ReadMIMEHeader
       (Sql.String (RequestHeader request) +:+ CRLF +:+ CRLF) = (m, Some err) ->
     curlText request =
       commandText request
         (headerPairs (range (Textproto.Del "X-Unix-Micro"
                                (Textproto.Del "Content-Length" m)))) /\
     (exists n,
        Textproto.ReadMIMEHeader
          (linesBlock (take n (Textproto.lines (Sql.String (RequestHeader request)))) +:+
           CRLF) = (m, None)) /\
     (m = ∅ -> curlText request = commandText request [])) /\
  (Sql.Valid (RequestHeader request) = true ->
   forall hs bad rest,
     Sql.String (RequestHeader request) = headerBlock hs +:+ bad +:+ CRLF +:+ rest \/
     Sql.String (RequestHeader request) = headerBlock hs +:+ bad ->
     Forall wellFormed hs -> malformedLine bad ->
     let emitted := headerPairs (range (curlHeader request)) in
     snd (Textproto.ReadMIMEHeader
            (Sql.String (RequestHeader request) +:+ CRLF +:+ CRLF)) =
       Some Textproto.ProtocolError /\
     curlText request = commandText request emitted /\
     (forall k, filter (fun kv : string * string => fst kv = k) emitted =
                filter (fun kv : string * string => fst kv = k) (keptPairs hs)) /\
     emitted ≡ₚ keptPairs hs) /\
  Textproto.ReadMIMEHeader ("no colon here" +:+ CRLF +:+ CRLF) =
    (∅, Some Textproto.ProtocolError).
Proof using range_perm.
  split; [apply curl_no_error|]. split; [|split; [|vm_compute; reflexivity]].
  - intros Hvalid m err Hread.
    assert (Htext : curlText request =
              commandText request
                (headerPairs (range (Textproto.Del "X-Unix-Micro"
                                       (Textproto.Del "Content-Length" m))))).
    { rewrite (curlText_valid request Hvalid). unfold curlHeader. by rewrite Hread. }
    split; [exact Htext|]. split; [exact (ReadMIMEHeader_prefix _ _ _ Hread)|].
    intros ->. rewrite Htext. unfold Textproto.Del. rewrite !delete_empty.
    pose proof (range_perm ∅) as Hr. rewrite map_to_list_empty in Hr.
    apply Permutation_nil_r in Hr. by rewrite Hr.
  - intros Hvalid hs bad rest Hblock Hall Hbad emitted.
    assert (Hread : Textproto.ReadMIMEHeader
                      (Sql.String (RequestHeader request) +:+ CRLF +:+ CRLF) =
                    (fold_left addPair hs ∅, Some Textproto.ProtocolError)).
    { destruct Hblock as [-> | ->]; rewrite !app_assoc_s;
        by apply ReadMIMEHeader_block_bad. }
    split; [by rewrite Hread|]. split; [by apply curlText_valid|].
    exact (pairs_of_block request hs _ Hread).
Qed.

(** ** The time in a synthesized file name *)

(** X6. The file name of a record without symbolic identifier fixes the
    date and the clock reading of its creation time, as [Format] prints
    them in the location of the time value: two such records with the
    same name have the same stamp, and the same year, month, day, hour,
    minute and second in it (for years 0 to 9999).  This is about the
    reading, not about the instant: two instants with the same reading in
    their own locations get the same stamp. *)
Theorem fallback_filename_fixes_time (r1 r2 : Request) :
  Strings.HasPrefix (Ident r1) "chatcmpl=" = false ->
  Strings.HasPrefix (Ident r1) "requestid=" = false ->
  Strings.HasPrefix (Ident r2) "chatcmpl=" = false ->
  Strings.HasPrefix (Ident r2) "requestid=" = false ->
  stampable (CreatedAt r1) -> stampable (CreatedAt r2) ->
  genFilename r1 = genFilename r2 ->
  Time.Format (CreatedAt r1) Time.layout_20060102150405 =
    Time.Format (CreatedAt r2) Time.layout_20060102150405 /\
  Time.Year (CreatedAt r1) = Time.Year (CreatedAt r2) /\
  Time.Month (CreatedAt r1) = Time.Month (CreatedAt r2) /\
  Time.Day (CreatedAt r1) = Time.Day (CreatedAt r2) /\
  Time.Hour (CreatedAt r1) = Time.Hour (CreatedAt r2) /\
  Time.Minute (CreatedAt r1) = Time.Minute (CreatedAt r2) /\
  Time.Second (CreatedAt r1) = Time.Second (CreatedAt r2).
Proof.
  intros Ha1 Hb1 Ha2 Hb2 Ht1 Ht2.
  rewrite (genFilename_fallback r1 Ha1 Hb1), (genFilename_fallback r2 Ha2 Hb2).
  intros Heq.
  assert (Hlen : forall t, stampable t ->
            String.length (Time.Format t Time.layout_20060102150405) = 14).
  { intros t (Hy & Hmo & Hd & Hh & Hmi & Hs). rewrite Format_stamp, !length_app_s.
    rewrite (fixedWidth_length _ _ (appendInt_year _ Hy)).
    rewrite (fixedWidth_length _ _ (appendInt_field _ Hmo)).
    rewrite (fixedWidth_length _ _ (appendInt_field _ Hd)).
    rewrite (fixedWidth_length _ _ (appendInt_field _ Hh)).
    rewrite (fixedWidth_length _ _ (appendInt_field _ Hmi)).
    rewrite (fixedWidth_length _ _ (appendInt_field _ Hs)). reflexivity. }
  assert (Hstamp : Time.Format (CreatedAt r1) Time.layout_20060102150405 =
                   Time.Format (CreatedAt r2) Time.layout_20060102150405).
  { apply app_inv_tail_length in Heq as [_ Heq].
    - apply app_inv_length in Heq as [Heq _]; [exact Heq|]. by rewrite !Hlen.
    - rewrite !length_app_s, !Hlen by assumption. reflexivity. }
  split; [exact Hstamp|].
  by rewrite (Format_inj _ _ Ht1 Ht2 Hstamp).
Qed.

End Runtime.

End ExportGo.

(** * Two renderings

    Go visits a map in an order of its own at each loop, so two calls of
    [writeCurlCommand] have an order each. *)

Section TwoRenderings.

Variable Other : Type.
Variable Url : @Request Other -> string.
Variables range1 range2 : Textproto.MIMEHeader -> list (string * list string).
Hypothesis range1_perm : forall m, range1 m ≡ₚ map_to_list m.
Hypothesis range2_perm : forall m, range2 m ≡ₚ map_to_list m.

(** X11. What a stored header block holds after its first blank line is
    never rendered.  A record whose block goes on after an empty line has
    the header map of the record whose block ends there; the commands of
    the two records, each rendered with an order of its own, hold the same
    header lines up to the order of the names, those of one name in the
    same order; and the commands are equal when both renderings visit the
    map in the same order and method, URL and body are the same. *)
Theorem text_after_blank_line_is_dropped (r1 r2 : @Request Other) (rest : string) :
  Sql.Valid (RequestHeader r1) = true -> Sql.Valid (RequestHeader r2) = true ->
  Sql.String (RequestHeader r2) =
    Sql.String (RequestHeader r1) +:+ CRLF +:+ CRLF +:+ rest ->
  let emitted1 := headerPairs (range1 (curlHeader Other r1)) in
  let emitted2 := headerPairs (range2 (curlHeader Other r2)) in
  curlHeader Other r2 = curlHeader Other r1 /\
  curlText Other Url range1 r1 = commandText Other Url r1 emitted1 /\
  curlText Other Url range2 r2 = commandText Other Url r2 emitted2 /\
  emitted2 ≡ₚ emitted1 /\
  (forall k, filter (fun kv : string * string => fst kv = k) emitted2 =
             filter (fun kv : string * string => fst kv = k) emitted1) /\
  (range2 (curlHeader Other r1) = range1 (curlHeader Other r1) ->
   RequestMethod r2 = RequestMethod r1 -> Url r2 = Url r1 ->
   RequestBody r2 = RequestBody r1 ->
   curlText Other Url range2 r2 = curlText Other Url range1 r1).
Proof using range1_perm range2_perm.
  intros Hv1 Hv2 Hblock emitted1 emitted2.
  assert (Hread : Textproto.ReadMIMEHeader
                    (Sql.String (RequestHeader r2) +:+ CRLF +:+ CRLF) =
                  Textproto.ReadMIMEHeader
                    (Sql.String (RequestHeader r1) +:+ CRLF +:+ CRLF)).
  { rewrite Hblock, !app_assoc_s.
    apply (ReadMIMEHeader_blank (Sql.String (RequestHeader r1))
             (rest +:+ CRLF +:+ CRLF)). }
  assert (Hmap : curlHeader Other r2 = curlHeader Other r1).
  { unfold curlHeader. by rewrite Hread. }
  assert (Hname : forall k,
            filter (fun kv : string * string => fst kv = k) emitted2 =
            filter (fun kv : string * string => fst kv = k) emitted1).
  { intros k. unfold emitted1, emitted2.
    rewrite (pairs_of_name Other range2 range2_perm r2 k).
    rewrite (pairs_of_name Other range1 range1_perm r1 k).
    by rewrite Hread. }
  split; [exact Hmap|].
  split; [exact (curlText_valid Other Url range1 r1 Hv1)|].
  split; [exact (curlText_valid Other Url range2 r2 Hv2)|].
  split; [by apply Permutation_by_name|]. split; [exact Hname|].
  intros Hrange Hm Hu Hb.
  rewrite (curlText_valid Other Url range1 r1 Hv1), (curlText_valid Other Url range2 r2 Hv2).
  unfold commandText, requestLine, bodyLine.
  by rewrite Hmap, Hrange, Hm, Hu, Hb.
Qed.

End TwoRenderings.

(** * Instances *)

(** C2, as stated, fails for a record without body: the authorization line
    is then the last line, and it is followed by the line continuation and
    a bare newline, not by a plain newline. *)
Lemma curl_line_endings_counterexample :
  let r := sampleRequest absent absent in
  curlText unit sampleUrl map_to_list r <> joined (emittedLines unit sampleUrl map_to_list r) /\
  curlText unit sampleUrl map_to_list r =
    "curl -X 'POST' 'https://api.moonshot.cn/v1/chat/completions' " +:+ continuation +:+
    authorization +:+ continuation +:+ Strings.str1 Bytes.LF.
Proof.
  split.
  - apply String.eqb_neq. vm_compute. reflexivity.
  - vm_compute. reflexivity.
Qed.

Lemma curl_line_endings_witness :
  let r := sampleRequest absent (present sampleBody) in
  Sql.Valid (RequestBody r) = true /\
  curlText unit sampleUrl map_to_list r = joined (emittedLines unit sampleUrl map_to_list r).
Proof.
  split; [reflexivity|].
  exact (proj1 (proj2 (curl_line_endings unit sampleUrl map_to_list
                         (sampleRequest absent (present sampleBody)))) eq_refl).
Defined.

Lemma genFilename_precedence_witness :
  genFilename unit (fun _ => "chatcmpl=cmpl-42") (fun s => s) chatRequest = "cmpl-42.json" /\
  genFilename unit (fun _ => "requestid=r-9") (fun s => s) chatRequest = "requestid-r-9.json" /\
  genFilename unit sampleIdent (fun s => s) chatRequest =
    "post-chat-completions-20240704090500.json" /\
  fixedWidth 14 (Time.Format sampleTime Time.layout_20060102150405) = true.
Proof.
  split; [|split; [|split]].
  - exact (proj1 (genFilename_precedence unit (fun _ => "chatcmpl=cmpl-42") (fun s => s))
             chatRequest "cmpl-42" eq_refl).
  - exact (proj1 (proj2 (genFilename_precedence unit (fun _ => "requestid=r-9") (fun s => s)))
             chatRequest "r-9" eq_refl).
  - exact (proj1 (proj2 (proj2 (genFilename_precedence unit sampleIdent (fun s => s))))
             chatRequest eq_refl eq_refl).
  - apply (proj2 (proj1 (proj2 (proj2 (proj2 (proj2 (proj2
             (genFilename_precedence unit sampleIdent (fun s => s))))))) sampleTime));
      simpl; lia.
Defined.

(** C6, as stated, fails on the command line without [--escape-html]: the
    encoder is then set to not escape, and [<] is written as it is. *)
Lemma escapeHTML_default_off_counterexample :
  Json.escapeHTML (encoderOf (parseFlags [])) <> true /\
  Json.appendString (Json.escapeHTML (encoderOf (parseFlags []))) "a<b" =
    Some (String Bytes.dquote ("a<b" +:+ Strings.str1 Bytes.dquote)).
Proof. split; [discriminate|reflexivity]. Qed.

Lemma escapeHTML_default_off_witness :
  encoderOf (parseFlags [ArgId 7; ArgOutput "out.json"]) =
  Json.mkEncoder EmptyString "    " false.
Proof.
  exact (proj1 escapeHTML_default_off [ArgId 7; ArgOutput "out.json"] eq_refl).
Defined.

Lemma annotation_chat_only_witness :
  annotate unit (fun _ => false) goodFlags chatRequest = chatRequest /\
  Category (annotate unit (fun _ => true) goodFlags chatRequest) = "goodcase" /\
  Tags (annotate unit (fun _ => true) goodFlags chatRequest) = ["t1"].
Proof.
  split.
  - exact (proj1 (@annotation_chat_only unit sampleIdent sampleUrl (fun _ => false)
                    (fun s => s) map_to_list Io.Buffer unit Io.buffer_writer
                    (sampleGet chatRequest) tt (fun _ _ => true) (fun _ => None)
                    EmptyString sampleJoin sampleMarshal goodFlags chatRequest) eq_refl).
  - exact (proj1 (proj2 (@annotation_chat_only unit sampleIdent sampleUrl (fun _ => true)
                    (fun s => s) map_to_list Io.Buffer unit Io.buffer_writer
                    (sampleGet chatRequest) tt (fun _ _ => true) (fun _ => None)
                    EmptyString sampleJoin sampleMarshal goodFlags chatRequest)) eq_refl).
Defined.

(** C8, as stated, fails for a header block with a good line before a
    malformed one: the parse fails, and the command still has the line of
    the header that was read, so it differs from the command of the record
    without header block. *)
Lemma malformed_header_block_tolerated_counterexample :
  let r := sampleRequest (present brokenBlock) absent in
  snd (Textproto.ReadMIMEHeader (Sql.String (RequestHeader r) +:+ CRLF +:+ CRLF)) =
    Some Textproto.ProtocolError /\
  headerLines unit map_to_list r = ["-H 'Accept: text/plain' "] /\
  curlText unit sampleUrl map_to_list r <>
  curlText unit sampleUrl map_to_list (sampleRequest absent absent).
Proof.
  split; [vm_compute; reflexivity|]. split; [vm_compute; reflexivity|].
  apply String.eqb_neq. vm_compute. reflexivity.
Qed.

Lemma curl_mode_skips_annotation_witness :
  let run := @Run unit sampleIdent sampleUrl (fun _ => true) (fun s => s) map_to_list
               Io.Buffer unit Io.buffer_writer (sampleGet chatRequest) tt
               (fun _ _ => true) (fun _ => None) EmptyString sampleJoin sampleMarshal in
  snd (fst (run curlGoodFlags emptyWorld)) = Some chatRequest /\
  run curlFlags emptyWorld = run curlGoodFlags emptyWorld.
Proof.
  pose proof (@curl_mode_skips_annotation unit sampleIdent sampleUrl (fun _ => true)
                (fun s => s) map_to_list Io.Buffer unit Io.buffer_writer
                (sampleGet chatRequest) tt (fun _ _ => true) (fun _ => None)
                EmptyString sampleJoin sampleMarshal curlGoodFlags chatRequest emptyWorld
                eq_refl eq_refl) as [Hrun Hsame].
  split.
  - cbv zeta. rewrite Hrun. reflexivity.
  - exact (Hsame curlFlags eq_refl eq_refl eq_refl eq_refl).
Defined.

(** ** Further sample runs *)

(** A write fault ends the rendering at once: with room for one write, only
    the request line reaches the writer, and the error is returned. *)
Example write_fault_aborts :
  writeCurlCommand unit sampleUrl map_to_list (W := Io.Limited) (E := unit)
    chatRequest (Io.mkLimited 1 EmptyString) =
  (Io.mkLimited 0 (requestLine unit sampleUrl chatRequest +:+ continuation), Some tt).
Proof. vm_compute. reflexivity. Qed.

(** The sample chat record, annotated and written as JSON into a
    directory: the file is named after the record. *)
Example json_mode_run :
  @Run unit sampleIdent sampleUrl (fun _ => true) (fun s => s) map_to_list
    Io.Buffer unit Io.buffer_writer (sampleGet chatRequest) tt
    (fun _ _ => true) (fun _ => None) EmptyString sampleJoin sampleMarshal
    (parseFlags [ArgId 7; ArgGood true; ArgDirectory "out"]) emptyWorld =
  (mkWorld Io.Buffer EmptyString EmptyString
     {["out/post-chat-completions-20240704090500.json" := "goodcase" +:+ Strings.str1 Bytes.LF]},
   Some (set_Category "goodcase" chatRequest), Returned).
Proof. vm_compute. reflexivity. Qed.

(** ** Instances of the further properties *)

Lemma escape_lossless_witness :
  escape "plain" = "plain" /\ escape (escape "it's") <> escape "it's".
Proof.
  split.
  - exact (proj2 (proj1 (proj2 (proj2 escape_lossless)) "plain") eq_refl).
  - apply (proj2 (proj2 (proj2 escape_lossless)) "it's"). discriminate.
Defined.

Lemma fallback_filename_has_no_slash_witness :
  noSlash (genFilename unit sampleIdent (fun s => s) chatRequest) = true.
Proof.
  refine (fallback_filename_has_no_slash unit sampleIdent (fun s => s) chatRequest
            eq_refl eq_refl eq_refl _).
  discriminate.
Defined.

Lemma sampleTime_stampable : stampable sampleTime.
Proof. unfold stampable, sampleTime. simpl. lia. Qed.

Lemma symbolic_filename_fixes_id_witness : "cmpl-42" = "cmpl-42".
Proof.
  exact (proj1 (symbolic_filename_fixes_id unit (fun _ => "chatcmpl=cmpl-42") (fun s => s)
                  chatRequest (set_Category "goodcase" chatRequest) "cmpl-42" "cmpl-42")
           eq_refl eq_refl eq_refl).
Defined.

Lemma tags_follow_command_line_witness :
  Tags (annotate unit (fun _ => true)
          (parseFlags [ArgTag "a"; ArgId 7; ArgTag "b"]) chatRequest) = ["a"; "b"].
Proof.
  exact (tags_follow_command_line unit (fun _ => true)
           [ArgTag "a"; ArgId 7; ArgTag "b"] chatRequest eq_refl).
Defined.

(** ** Instances for the stored header block *)

(** C3, as stated, fails for a header block that spells [Content-Length]
    with a space before the colon: the reader files the header under the
    name with the space, which is not deleted, and the command holds a
    [Content-Length] line. *)
Lemma stripped_headers_not_rendered_counterexample :
  let r := sampleRequest (present spacedBlock) absent in
  curlText unit sampleUrl map_to_list r =
    commandText unit sampleUrl r [("Content-Length ", "5")] /\
  Strings.Contains (curlText unit sampleUrl map_to_list r) "-H 'Content-Length " = true.
Proof. split; vm_compute; reflexivity. Qed.

Lemma stripped_headers_not_rendered_witness :
  let r := sampleRequest (present anyCaseBlock) absent in
  Sql.Valid (RequestHeader r) = true /\
  curlText unit sampleUrl map_to_list r =
    commandText unit sampleUrl r [("Accept", "a"); ("Accept", "b")].
Proof.
  split; [reflexivity|].
  exact (proj1 (stripped_headers_not_rendered unit sampleUrl map_to_list
                  (fun m => Permutation_refl (map_to_list m))
                  (sampleRequest (present anyCaseBlock) absent) eq_refl)).
Defined.

Lemma authorization_line_fixed_witness :
  let r := sampleRequest (present storedKeyBlock) absent in
  Sql.Valid (RequestHeader r) = true /\
  curlText unit sampleUrl map_to_list r =
    commandText unit sampleUrl r [("Authorization", "Bearer sk-stored-key")] /\
  Strings.Contains (curlText unit sampleUrl map_to_list r) "sk-stored-key" = true.
Proof.
  split; [reflexivity|]. split; [|vm_compute; reflexivity].
  exact (proj2 (proj2 (authorization_line_fixed unit sampleUrl map_to_list
                         (fun m => Permutation_refl (map_to_list m))))
           (sampleRequest (present storedKeyBlock) absent) "Bearer sk-stored-key"
           eq_refl eq_refl eq_refl).
Defined.

Lemma malformed_header_block_tolerated_witness :
  let r := sampleRequest (present halfBrokenBlock) absent in
  Sql.Valid (RequestHeader r) = true /\
  curlText unit sampleUrl map_to_list r =
    commandText unit sampleUrl r (headerPairs (map_to_list (curlHeader unit r))) /\
  headerPairs (map_to_list (curlHeader unit r)) ≡ₚ [("Accept", "text/plain")].
Proof.
  split; [reflexivity|].
  assert (Hgood : Forall wellFormed [("Accept", "text/plain")])
    by (repeat constructor).
  assert (Hbad : malformedLine "broken")
    by (split; [discriminate|]; split; [reflexivity|]; split; reflexivity).
  destruct (proj1 (proj2 (proj2
              (malformed_header_block_tolerated unit sampleUrl map_to_list
                 (fun m => Permutation_refl (map_to_list m))
                 (sampleRequest (present halfBrokenBlock) absent)))) eq_refl
              [("Accept", "text/plain")] "broken" "User-Agent: x"
              (or_introl eq_refl) Hgood Hbad) as (_ & Htext & _ & Hperm).
  split; [exact Htext|exact Hperm].
Defined.

Lemma header_block_terminated_witness :
  curlText unit sampleUrl map_to_list (sampleRequest (present "Accept: a") absent) =
    commandText unit sampleUrl (sampleRequest (present "Accept: a") absent)
      [("Accept", "a")] /\
  curlText unit sampleUrl map_to_list (sampleRequest absent absent) =
    commandText unit sampleUrl (sampleRequest absent absent) [].
Proof.
  split.
  - exact (proj1 (proj1 (header_block_terminated unit sampleUrl map_to_list
                           (sampleRequest (present "Accept: a") absent)) eq_refl)).
  - exact (proj1 (proj1 (proj2 (header_block_terminated unit sampleUrl map_to_list
                                  (sampleRequest absent absent))) eq_refl)).
Defined.

Lemma header_values_keep_order_witness :
  let r := sampleRequest (present twoValueBlock) absent in
  Sql.Valid (RequestHeader r) = true /\
  curlText unit sampleUrl map_to_list r =
    commandText unit sampleUrl r (headerPairs (map_to_list (curlHeader unit r))) /\
  filter (fun kv : string * string => fst kv = "Accept")
    (headerPairs (map_to_list (curlHeader unit r))) = [("Accept", "a"); ("Accept", "b")].
Proof.
  split; [reflexivity|].
  exact (header_values_keep_order unit sampleUrl map_to_list
           (fun m => Permutation_refl (map_to_list m))
           (sampleRequest (present twoValueBlock) absent) "Accept" eq_refl).
Defined.

Lemma header_lines_have_no_newline_witness :
  let r := sampleRequest (present foldedBlock) absent in
  headerLines unit map_to_list r = ["-H 'X-Trace: a b' "] /\
  countByte Bytes.LF (curlText unit sampleUrl map_to_list r) = 4.
Proof.
  split; [vm_compute; reflexivity|].
  exact (proj2 (proj2 (header_lines_have_no_newline unit sampleUrl map_to_list
                         (fun m => Permutation_refl (map_to_list m))
                         (sampleRequest (present foldedBlock) absent)))).
Defined.

Lemma fallback_filename_fixes_time_witness :
  Time.Second (CreatedAt chatRequest) =
  Time.Second (CreatedAt (set_Category "goodcase" chatRequest)).
Proof.
  exact (proj2 (proj2 (proj2 (proj2 (proj2 (proj2
           (fallback_filename_fixes_time unit sampleIdent (fun s => s)
              chatRequest (set_Category "goodcase" chatRequest)
              eq_refl eq_refl eq_refl eq_refl
              sampleTime_stampable sampleTime_stampable eq_refl))))))).
Defined.

Lemma text_after_blank_line_is_dropped_witness :
  let r1 := sampleRequest (present "Accept: a") absent in
  let r2 := sampleRequest (present hiddenBlock) absent in
  let backwards := fun m : Textproto.MIMEHeader => reverse (map_to_list m) in
  curlText unit sampleUrl backwards r2 =
    commandText unit sampleUrl r2 (headerPairs (backwards (curlHeader unit r2))) /\
  headerPairs (backwards (curlHeader unit r2)) ≡ₚ
  headerPairs (map_to_list (curlHeader unit r1)).
Proof.
  destruct (text_after_blank_line_is_dropped unit sampleUrl
              map_to_list (fun m => reverse (map_to_list m))
              (fun m => Permutation_refl (map_to_list m))
              (fun m => reverse_Permutation (map_to_list m))
              (sampleRequest (present "Accept: a") absent)
              (sampleRequest (present hiddenBlock) absent)
              "X-Hidden: 1" eq_refl eq_refl eq_refl) as (_ & _ & Htext & Hperm & _).
  split; [exact Htext|exact Hperm].
Defined.

Lemma mixedHeaders_wellFormed : Forall wellFormed mixedHeaders.
Proof. repeat constructor. Qed.

Lemma stored_headers_come_back_witness :
  let r := sampleRequest (present (headerBlock mixedHeaders)) absent in
  Sql.Valid (RequestHeader r) = true /\
  curlText unit sampleUrl map_to_list r =
    commandText unit sampleUrl r (headerPairs (map_to_list (curlHeader unit r))) /\
  headerPairs (map_to_list (curlHeader unit r)) ≡ₚ
    [("Content-Type", "application/json"); ("X-Trace", "a");
     ("Content-Type", "text/plain")].
Proof.
  split; [reflexivity|].
  destruct (stored_headers_come_back unit sampleUrl map_to_list
              (fun m => Permutation_refl (map_to_list m))
              (sampleRequest (present (headerBlock mixedHeaders)) absent)
              mixedHeaders eq_refl (or_introl eq_refl) mixedHeaders_wellFormed)
    as (_ & Htext & _ & Hperm).
  split; [exact Htext|exact Hperm].
Defined.
